(** * Portainer MCP wrapper: a shallow embedding of the Go sources

    The wrapper is an HTTP server with two routes: a liveness endpoint and a
    catch-all endpoint guarded by a bearer-token middleware in front of the
    MCP streamable-HTTP handler.  This file embeds

    - [internal/auth/auth.go]      (module [auth]),
    - [internal/config/config.go]  (module [config]),
    - [internal/bridge/bridge.go]  (module [bridge]),
    - [cmd/wrapper/main.go]        (module [wrapper]),

    together with the few pieces of the Go standard library these files call
    ([strings.SplitN], [strconv.Atoi], [strconv.ParseBool], [net/http]'s
    response writer, [http.Error], [http.Redirect], the server's handling of
    one request and the routing tree of [http.ServeMux] as Go 1.23 has it,
    the escaping of [net/url] the mux relies on, [exec.Command]).

    The bridge of the repository builds the subprocess command and stops
    there.  The message codec and the pending-request table that the
    specification describes for it are not in the sources; the modules
    [codec] and [transport] model them from the specification's words.

    Go strings are byte sequences; they are modelled by [string] (a list of
    8-bit characters). *)

From Stdlib Require Import ZArith String Ascii List Bool Lia.
From Stdlib Require Import DecimalString DecimalPos DecimalN DecimalZ DecimalFacts.
From stdpp Require Import base option gmap strings list.

Local Open Scope string_scope.
Local Open Scope Z_scope.

(** ** Byte strings *)

(** The double quote character, and a string between double quotes. *)
Definition dquote : string := String (ascii_of_nat 34) EmptyString.
Definition newline : string := String (ascii_of_nat 10) EmptyString.
Definition quoted (s : string) : string := dquote +:+ s +:+ dquote.

(** A character that stands for itself inside a JSON string literal:
    printable ASCII other than the double quote and the backslash. *)
Definition json_plain_char (c : ascii) : bool :=
  let n := nat_of_ascii c in
  (32 <=? n)%nat && (n <=? 126)%nat && negb (n =? 34)%nat && negb (n =? 92)%nat.

Fixpoint json_plain (s : string) : bool :=
  match s with
  | EmptyString => true
  | String c s' => json_plain_char c && json_plain s'
  end.

(** The text of the JSON object whose only member is [error], with the
    string [msg] as its value. *)
Definition json_error_object (msg : string) : string :=
  "{" +:+ quoted "error" +:+ ":" +:+ quoted msg +:+ "}".

(** Go's slice expression [s[n:]]. *)
Fixpoint slice_from (n : nat) (s : string) : string :=
  match n, s with
  | O, _ => s
  | S n', String _ s' => slice_from n' s'
  | S _, EmptyString => EmptyString
  end.

(** Go's slice expression [s[:n]]. *)
Definition slice_to (n : nat) (s : string) : string := substring 0 n s.

Module strings.

(** [strings.Index(s, sep)]: the index of the first instance of [sep] in
    [s], [None] for Go's -1. *)
Fixpoint Index (s sep : string) : option nat :=
  if String.prefix sep s then Some O
  else match s with
       | EmptyString => None
       | String _ s' => S <$> Index s' sep
       end.

(** The loop of [strings.genSplit] for a non-empty separator: at most [n]
    cuts, the remainder of the string is the last element. *)
Fixpoint genSplit_loop (n : nat) (s sep : string) : list string :=
  match n with
  | O => [s]
  | S n' =>
      match Index s sep with
      | None => [s]
      | Some m =>
          slice_to m s :: genSplit_loop n' (slice_from (m + String.length sep) s) sep
      end
  end.

(** [strings.SplitN(s, sep, n)] for a non-empty separator [sep] and a
    count [n >= 0], the way the middleware calls it: [n = 0] gives the
    empty slice, otherwise [n] is capped at [len(s) + 1] and the string is
    cut at the first [n - 1] separators. *)
Definition SplitN (s sep : string) (n : nat) : list string :=
  match n with
  | O => []
  | S _ =>
      let n := Nat.min n (String.length s + 1) in
      genSplit_loop (n - 1) s sep
  end.

(** [strings.IndexByte(s, c)]. *)
Fixpoint IndexByte (s : string) (c : ascii) : option nat :=
  match s with
  | EmptyString => None
  | String x s' => if Ascii.eqb x c then Some O else S <$> IndexByte s' c
  end.

(** [strings.Count(s, sep)] for a separator of one byte. *)
Fixpoint CountByte (s : string) (c : ascii) : nat :=
  match s with
  | EmptyString => O
  | String x s' => if Ascii.eqb x c then S (CountByte s' c) else CountByte s' c
  end.

End strings.

(** ** net/url, as far as the mux uses it *)

Module url.

Definition ishex (c : ascii) : bool :=
  let n := N_of_ascii c in
  ((48 <=? n) && (n <=? 57) || (97 <=? n) && (n <=? 102)
   || (65 <=? n) && (n <=? 70))%N.

Definition unhex (c : ascii) : N :=
  let n := N_of_ascii c in
  (if (48 <=? n) && (n <=? 57) then n - 48
   else if (97 <=? n) && (n <=? 102) then n - 97 + 10
   else if (65 <=? n) && (n <=? 70) then n - 65 + 10
   else 0)%N.

(** [unescape(s, encodePathSegment)]: every [%] must be followed by two
    hexadecimal digits and the three bytes stand for the byte they spell;
    [None] is the [EscapeError] of a [%] that is not.  (In this mode a plus
    sign stays a plus sign.) *)
Fixpoint unescape (s : string) : option string :=
  match s with
  | EmptyString => Some EmptyString
  | String c s' =>
      if Ascii.eqb c "%" then
        match s' with
        | String a (String b s'') =>
            if ishex a && ishex b
            then String (ascii_of_N (unhex a * 16 + unhex b)) <$> unescape s''
            else None
        | _ => None
        end
      else String c <$> unescape s'
  end.

(** [url.PathUnescape(s)]. *)
Definition PathUnescape (s : string) : option string := unescape s.

(** [shouldEscape(c, encodePath)]: letters, digits, the marks [-_.~] and
    the reserved characters other than the question mark stay as they are;
    every other byte is escaped. *)
Definition shouldEscape (c : ascii) : bool :=
  let n := N_of_ascii c in
  if ((97 <=? n) && (n <=? 122) || (65 <=? n) && (n <=? 90)
      || (48 <=? n) && (n <=? 57))%N then false
  else if bool_decide (c ∈ ["-"; "_"; "."; "~"]%char) then false
  else if bool_decide (c ∈ ["$"; "&"; "+"; ","; "/"; ":"; ";"; "="; "@"]%char) then false
  else true.

Definition upperhex (n : N) : ascii :=
  match String.get (N.to_nat n) "0123456789ABCDEF" with
  | Some c => c
  | None => "0"%char
  end.

(** [escape(s, encodePath)]. *)
Fixpoint escape (s : string) : string :=
  match s with
  | EmptyString => EmptyString
  | String c s' =>
      if shouldEscape c then
        String "%" (String (upperhex (N_of_ascii c / 16))
                      (String (upperhex (N_of_ascii c mod 16)) (escape s')))
      else String c (escape s')
  end.

(** [(&url.URL{Path: path}).String()]: with no scheme, host or raw path the
    text is the escaped path, [*] for the path [*], after [./] when the
    first segment of a relative path has a colon in it. *)
Definition Path_String (path : string) : string :=
  let escaped := if decide (path = "*") then path else escape path in
  let segment :=
    match strings.IndexByte escaped "/" with
    | Some i => slice_to i escaped
    | None => escaped
    end in
  match strings.IndexByte segment ":" with
  | Some _ => "./" +:+ escaped
  | None => escaped
  end.

End url.

(** ** net/http *)

Module http.

Definition StatusOK : Z := 200.
Definition StatusUnauthorized : Z := 401.
Definition StatusMovedPermanently : Z := 301.
Definition StatusBadRequest : Z := 400.
Definition StatusNotFound : Z := 404.

(** [http.Header]: canonical header name to its values. *)
Abbreviation Header := (gmap string (list string)).

(** [Header.Get]: the first value of the key, the empty string when there
    is none.  Keys are kept in canonical form, as the server stores them. *)
Definition Header_Get (h : Header) (key : string) : string :=
  match h !! key with
  | Some (v :: _) => v
  | _ => EmptyString
  end.

Definition Header_Set (h : Header) (key value : string) : Header :=
  <[key := [value]]> h.

Definition Header_Del (h : Header) (key : string) : Header := delete key h.

(** The part of [http.Request] the wrapper and the mux read.
    [URL_EscapedPath] is [r.URL.EscapedPath()], the path of the request in
    the escaped form the request line has it, which is the form the mux
    reads.  The server parses the request target [*], and no other, to a
    URL with the path [*], so the request with the [RequestURI] [*] is the
    one whose path is [*]. *)
Record Request := mkRequest {
  Method : string;
  ProtoMajor : Z;
  ProtoMinor : Z;
  URL_EscapedPath : string;
  Header_of : Header;
}.

(** [pathUnescape] of net/http: the decoded text, the text itself when it
    is not validly escaped. *)
Definition pathUnescape (path : string) : string :=
  match url.PathUnescape path with
  | Some u => u
  | None => path
  end.

(** [r.URL.Path]: the decoded form of the escaped path. *)
Definition URL_Path (r : Request) : string := pathUnescape (URL_EscapedPath r).

(** [r.RequestURI == "*"], read off the path. *)
Definition RequestURI_is_star (r : Request) : bool :=
  bool_decide (URL_EscapedPath r = "*").

(** [r.ProtoAtLeast(major, minor)]. *)
Definition ProtoAtLeast (r : Request) (major minor : Z) : bool :=
  (ProtoMajor r >? major) || (ProtoMajor r =? major) && (ProtoMinor r >=? minor).

(** The state behind an [http.ResponseWriter]: the header map, the status
    line once it has been written, and the body written so far. *)
Record ResponseWriter := mkResponse {
  rw_header : Header;
  rw_status : option Z;
  rw_body : string;
}.

(** The writer the server hands to a handler for a new request. *)
Definition newResponse : ResponseWriter :=
  {| rw_header := ∅; rw_status := None; rw_body := EmptyString |}.

Definition SetHeader (key value : string) (w : ResponseWriter) : ResponseWriter :=
  {| rw_header := Header_Set (rw_header w) key value;
     rw_status := rw_status w; rw_body := rw_body w |}.

Definition DelHeader (key : string) (w : ResponseWriter) : ResponseWriter :=
  {| rw_header := Header_Del (rw_header w) key;
     rw_status := rw_status w; rw_body := rw_body w |}.

(** [w.WriteHeader(code)]: the first call fixes the status, a later call
    is superfluous and ignored. *)
Definition WriteHeader (code : Z) (w : ResponseWriter) : ResponseWriter :=
  match rw_status w with
  | Some _ => w
  | None => {| rw_header := rw_header w; rw_status := Some code; rw_body := rw_body w |}
  end.

(** [w.Write(data)]: writes the status [200] first when none was written. *)
Definition Write (data : string) (w : ResponseWriter) : ResponseWriter :=
  let w := WriteHeader StatusOK w in
  {| rw_header := rw_header w; rw_status := rw_status w;
     rw_body := rw_body w +:+ data |}.

(** [http.Error(w, error, code)]. *)
Definition Error (w : ResponseWriter) (error : string) (code : Z) : ResponseWriter :=
  let w := DelHeader "Content-Length" w in
  let w := SetHeader "Content-Type" "text/plain; charset=utf-8" w in
  let w := SetHeader "X-Content-Type-Options" "nosniff" w in
  let w := WriteHeader code w in
  Write (error +:+ newline) w.

(** The elements of a path: the pieces between its slashes. *)
Fixpoint segments (s : string) : list string :=
  match s with
  | EmptyString => [EmptyString]
  | String c s' =>
      if Ascii.eqb c "/" then EmptyString :: segments s'
      else match segments s' with
           | seg :: rest => String c seg :: rest
           | [] => [String c EmptyString]
           end
  end.

(** [path.Clean] on the elements of a rooted path, [kept] holding the
    elements retained so far, innermost first: empty and [.] elements are
    dropped, [..] removes the element before it (none at the root). *)
Fixpoint clean_elements (kept : list string) (elems : list string) : list string :=
  match elems with
  | [] => rev kept
  | e :: rest =>
      if decide (e = EmptyString \/ e = ".") then clean_elements kept rest
      else if decide (e = "..") then clean_elements (tail kept) rest
      else clean_elements (e :: kept) rest
  end.

Fixpoint join_elements (elems : list string) : string :=
  match elems with
  | [] => EmptyString
  | [e] => e
  | e :: rest => e +:+ "/" +:+ join_elements rest
  end.

(** [path.Clean(p)] for a rooted path [p]. *)
Definition path_Clean (p : string) : string :=
  "/" +:+ join_elements (clean_elements [] (segments p)).

Definition last_is_slash (p : string) : bool :=
  match p with
  | EmptyString => false
  | _ => String.eqb (slice_from (String.length p - 1) p) "/"
  end.

(** [cleanPath(p)] of net/http: the canonical form of a request path,
    rooted, without [.], [..] or repeated slashes, keeping a trailing
    slash. *)
Definition cleanPath (p : string) : string :=
  match p with
  | EmptyString => "/"
  | String c _ =>
      let p := if Ascii.eqb c "/" then p else "/" +:+ p in
      let np := path_Clean p in
      if last_is_slash p && negb (String.eqb np "/") then
        if (String.length p =? String.length np + 1)%nat && String.prefix np p
        then p else np +:+ "/"
      else np
  end.

(** [http.StatusText] on the status codes that occur here. *)
Definition StatusText (code : Z) : string :=
  if code =? StatusOK then "OK"
  else if code =? StatusMovedPermanently then "Moved Permanently"
  else if code =? StatusBadRequest then "Bad Request"
  else if code =? StatusUnauthorized then "Unauthorized"
  else if code =? StatusNotFound then "Not Found"
  else EmptyString.

(** [htmlEscape] of net/http: the five characters with an HTML meaning are
    replaced by their entities. *)
Fixpoint htmlEscape (s : string) : string :=
  match s with
  | EmptyString => EmptyString
  | String c s' =>
      (if Ascii.eqb c "&" then "&amp;"
       else if Ascii.eqb c "<" then "&lt;"
       else if Ascii.eqb c ">" then "&gt;"
       else if Ascii.eqb c (ascii_of_nat 34) then "&#34;"
       else if Ascii.eqb c "'" then "&#39;"
       else String c EmptyString) +:+ htmlEscape s'
  end.

(** [w.finishRequest()]: a handler that returned without writing a status
    has answered with [200]. *)
Definition finishRequest (w : ResponseWriter) : ResponseWriter :=
  WriteHeader StatusOK w.

(** A segment of a pattern: a literal, or the nameless wildcard for the
    rest of the path that a trailing slash stands for. *)
Record segment := mkSegment {
  seg_s : string;
  seg_wild : bool;
  seg_multi : bool;
}.

(** A parsed pattern.  The patterns of this model name no method and no
    host and have no wildcard in braces. *)
Record pattern := mkPattern {
  pat_str : string;
  pat_method : string;
  pat_host : string;
  pat_segments : list segment;
}.

Definition lastSegment (p : pattern) : segment :=
  List.last (pat_segments p) (mkSegment EmptyString false false).

(** The loop of [parsePattern] over the pieces of the path after its
    first slash: a literal segment is stored unescaped, an empty last piece
    is the trailing slash. *)
Fixpoint pattern_segments (pieces : list string) : list segment :=
  match pieces with
  | [] => []
  | [piece] =>
      if decide (piece = EmptyString) then [mkSegment EmptyString true true]
      else [mkSegment (pathUnescape piece) false false]
  | piece :: rest => mkSegment (pathUnescape piece) false false :: pattern_segments rest
  end.

(** [parsePattern(s)] for a pattern that is a rooted path of literal
    segments, with or without a trailing slash; [None] for the empty
    pattern and for a pattern with a method, a host or a wildcard in braces,
    which this model leaves out. *)
Definition parsePattern (s : string) : option pattern :=
  match s with
  | EmptyString => None
  | String c _ =>
      if Ascii.eqb c "/"
         && bool_decide (strings.IndexByte s " " = None)
         && bool_decide (strings.IndexByte s (ascii_of_nat 9) = None)
         && bool_decide (strings.IndexByte s "{" = None)
      then Some {| pat_str := s; pat_method := EmptyString; pat_host := EmptyString;
                   pat_segments := pattern_segments (tail (segments s)) |}
      else None
  end.

(** [firstSegment(path)]: the first segment of the path, unescaped, and the
    rest; the segment [/] for the path that is a slash only. *)
Definition firstSegment (path : string) : string * string :=
  if decide (path = "/") then ("/", EmptyString)
  else
    let path := slice_from 1 path in
    let i := match strings.IndexByte path "/" with
             | Some i => i
             | None => String.length path
             end in
    (pathUnescape (slice_to i path), slice_from i path).

Section Handlers.
(** [D] is the state a handler may touch besides the response: for the
    MCP handler, its sessions and the subprocess behind them. *)
Context {D : Type}.

Definition Handler : Type := Request -> ResponseWriter -> D -> ResponseWriter * D.

(** [http.HandlerFunc(f)] for a function that only writes a response. *)
Definition HandlerFunc (f : ResponseWriter -> Request -> ResponseWriter) : Handler :=
  fun r w d => (f w r, d).

Definition NotFound : Handler :=
  fun _ w d => (Error w "404 page not found" StatusNotFound, d).

(** [http.Redirect(w, r, url, code)] for a [url] that is a rooted path
    without a query, already escaped, whose parse names no host, as the mux
    passes it: the path is cleaned, keeping its trailing slash, and becomes
    the [Location] header; a GET or HEAD request without a content type of
    its own gets the HTML content type; then the status, and for such a GET
    request a short note. *)
Definition Redirect (w : ResponseWriter) (r : Request) (url : string) (code : Z)
    : ResponseWriter :=
  let trailing := last_is_slash url in
  let url := path_Clean url in
  let url := if trailing && negb (last_is_slash url) then url +:+ "/" else url in
  let hadCT := bool_decide (is_Some (rw_header w !! "Content-Type")) in
  let w := SetHeader "Location" url w in
  let w :=
    if negb hadCT && (String.eqb (Method r) "GET" || String.eqb (Method r) "HEAD")
    then SetHeader "Content-Type" "text/html; charset=utf-8" w else w in
  let w := WriteHeader code w in
  if negb hadCT && String.eqb (Method r) "GET" then
    let body := "<a href=" +:+ quoted (htmlEscape url) +:+ ">"
                  +:+ StatusText code +:+ "</a>." +:+ newline in
    Write (body +:+ newline) w
  else w.

Definition RedirectHandler (url : string) (code : Z) : Handler :=
  fun r w d => (Redirect w r url code, d).

(** A node of the routing tree: the pattern and handler of a leaf, the
    children by literal segment (by method and by host on the first two
    levels), the child for the rest of the path, and the child for a
    wildcard segment (for no method and no host on the first two levels). *)
#[warnings="-register-all"]
Inductive routingNode : Type :=
  mkNode (leaf : option (pattern * Handler))
         (children : list (string * routingNode))
         (multiChild emptyChild : option routingNode).

Definition leaf (n : routingNode) : option (pattern * Handler) :=
  let '(mkNode l _ _ _) := n in l.
Definition children (n : routingNode) : list (string * routingNode) :=
  let '(mkNode _ c _ _) := n in c.
Definition multiChild (n : routingNode) : option routingNode :=
  let '(mkNode _ _ m _) := n in m.
Definition emptyChild (n : routingNode) : option routingNode :=
  let '(mkNode _ _ _ e) := n in e.

Definition emptyNode : routingNode := mkNode None [] None None.

(** [n.set(p, h)]. *)
Definition set (p : pattern) (h : Handler) (n : routingNode) : routingNode :=
  mkNode (Some (p, h)) (children n) (multiChild n) (emptyChild n).

Fixpoint children_find (key : string) (l : list (string * routingNode))
    : option routingNode :=
  match l with
  | [] => None
  | (k, c) :: l' => if decide (k = key) then Some c else children_find key l'
  end.

Fixpoint children_put (key : string) (c : routingNode)
    (l : list (string * routingNode)) : list (string * routingNode) :=
  match l with
  | [] => [(key, c)]
  | (k, c') :: l' =>
      if decide (k = key) then (k, c) :: l' else (k, c') :: children_put key c l'
  end.

(** [n.findChild(key)]. *)
Definition findChild (n : routingNode) (key : string) : option routingNode :=
  if decide (key = EmptyString) then emptyChild n else children_find key (children n).

(** [n.addChild(key)], followed by the change [f] to that child: the child
    is made when it is not there. *)
Definition addChild (key : string) (f : routingNode -> routingNode)
    (n : routingNode) : routingNode :=
  let c := f (default emptyNode (findChild n key)) in
  if decide (key = EmptyString)
  then mkNode (leaf n) (children n) (multiChild n) (Some c)
  else mkNode (leaf n) (children_put key c (children n)) (multiChild n) (emptyChild n).

(** [n.addSegments(segs, p, h)]. *)
Fixpoint addSegments (segs : list segment) (p : pattern) (h : Handler)
    (n : routingNode) : routingNode :=
  match segs with
  | [] => set p h n
  | seg :: segs' =>
      if seg_multi seg then
        mkNode (leaf n) (children n) (Some (set p h emptyNode)) (emptyChild n)
      else if seg_wild seg then addChild EmptyString (addSegments segs' p h) n
      else addChild (seg_s seg) (addSegments segs' p h) n
  end.

(** [root.addPattern(p, h)]: the host, then the method, then the path. *)
Definition addPattern (p : pattern) (h : Handler) (root : routingNode) : routingNode :=
  addChild (pat_host p)
    (addChild (pat_method p) (addSegments (pat_segments p) p h)) root.

(** [http.ServeMux]: the routing tree and the registered patterns. *)
Record ServeMux := mkServeMux {
  tree : routingNode;
  patterns : list pattern;
}.

Definition NewServeMux : ServeMux := {| tree := emptyNode; patterns := [] |}.

(** [mux.Handle(pattern, h)].  (Go panics on a pattern it cannot parse and
    on one that conflicts with a registered pattern; here such a call
    changes nothing, and conflicts are not looked for.) *)
Definition Handle (pattern : string) (h : Handler) (mux : ServeMux) : ServeMux :=
  match parsePattern pattern with
  | Some p => {| tree := addPattern p h (tree mux);
                 patterns := (patterns mux ++ [p])%list |}
  | None => mux
  end.

(** [n.matchPath(path, nil)], [None] for a nil result.  Every call passes
    on a shorter path, so the length of the path, and one more, is fuel
    enough.  The segments a wildcard matched are not collected: no handler
    here asks for them. *)
Fixpoint matchPath_fuel (fuel : nat) (n : option routingNode) (path : string)
    : option routingNode :=
  match fuel, n with
  | O, _ | _, None => None
  | S fuel, Some n =>
      if decide (path = EmptyString) then
        match leaf n with
        | None => None
        | Some _ => Some n
        end
      else
        let '(seg, rest) := firstSegment path in
        match matchPath_fuel fuel (findChild n seg) rest with
        | Some l => Some l
        | None =>
            match (if decide (seg ≠ "/")
                   then matchPath_fuel fuel (emptyChild n) rest else None) with
            | Some l => Some l
            | None => multiChild n
            end
        end
  end.

Definition matchPath (n : option routingNode) (path : string) : option routingNode :=
  matchPath_fuel (S (String.length path)) n path.

(** [n.matchMethodAndPath(method, path)]. *)
Definition matchMethodAndPath (n : option routingNode) (method path : string)
    : option routingNode :=
  match n with
  | None => None
  | Some n =>
      match matchPath (findChild n method) path with
      | Some l => Some l
      | None =>
          match (if decide (method = "HEAD")
                 then matchPath (findChild n "GET") path else None) with
          | Some l => Some l
          | None => matchPath (emptyChild n) path
          end
      end
  end.

(** [root.match(host, method, path)].  No pattern of the model names a
    host, so the child of the root for the host of the request is nil and
    the match is the one under the child for no host. *)
Definition tree_match (root : routingNode) (method path : string)
    : option routingNode :=
  matchMethodAndPath (emptyChild root) method path.

(** [exactMatch(n, path)]. *)
Definition exactMatch (n : option routingNode) (path : string) : bool :=
  match n with
  | None => false
  | Some n =>
      match leaf n with
      | None => false
      | Some (p, _) =>
          if negb (seg_multi (lastSegment p)) then true
          else if negb (bool_decide (path = EmptyString)) && negb (last_is_slash path)
          then false
          else (List.length (pat_segments p) =? strings.CountByte path "/")%nat
      end
  end.

(** [mux.matchOrRedirect(host, method, path, u)]: the node found, or the
    path to redirect to when the path with a slash added has an exact match
    and the path itself has not.  [u] is [r.URL.Path], [None] for the call
    with a nil URL. *)
Definition matchOrRedirect (mux : ServeMux) (method path : string) (u : option string)
    : option routingNode * option string :=
  let n := tree_match (tree mux) method path in
  if negb (exactMatch n path) && bool_decide (is_Some u) && negb (last_is_slash path)
     && exactMatch (tree_match (tree mux) method (path +:+ "/")) (path +:+ "/")
  then (None, Some (cleanPath (default EmptyString u) +:+ "/"))
  else (n, None).

(** The handler of the node found.  No pattern of the model names a
    method, so a failed match leaves the mux no methods to allow and its
    answer is [NotFound]. *)
Definition node_handler (n : option routingNode) : Handler :=
  match n with
  | Some (mkNode (Some (_, h)) _ _ _) => h
  | _ => NotFound
  end.

(** [mux.findHandler(r)].  A CONNECT request is matched on its escaped
    path as it is.  For any other method the escaped path is cleaned first,
    and a request whose escaped path is not already clean is answered by a
    redirect to the clean path instead of the matched handler.  The query
    string, which a redirect carries over, is left out. *)
Definition findHandler (mux : ServeMux) (r : Request) : Handler :=
  let escapedPath := URL_EscapedPath r in
  if decide (Method r = "CONNECT") then
    match matchOrRedirect mux (Method r) escapedPath (Some (URL_Path r)) with
    | (_, Some u) => RedirectHandler (url.Path_String u) StatusMovedPermanently
    | (_, None) =>
        node_handler (fst (matchOrRedirect mux (Method r) escapedPath None))
    end
  else
    let path := cleanPath escapedPath in
    match matchOrRedirect mux (Method r) path (Some (URL_Path r)) with
    | (_, Some u) => RedirectHandler (url.Path_String u) StatusMovedPermanently
    | (n, None) =>
        if decide (path ≠ escapedPath)
        then RedirectHandler (url.Path_String path) StatusMovedPermanently
        else node_handler n
    end.

(** The answer of [mux.ServeHTTP] to the request target [*]: status 400,
    and the connection closed for HTTP/1.1 and later. *)
Definition asteriskHandler : Handler :=
  fun r w d =>
    let w := if ProtoAtLeast r 1 1 then SetHeader "Connection" "close" w else w in
    (WriteHeader StatusBadRequest w, d).

(** [mux.ServeHTTP(w, r)]: the request target [*] is answered with status
    400, any other request by the handler found for it. *)
Definition mux_ServeHTTP (mux : ServeMux) : Handler :=
  fun r w d =>
    if RequestURI_is_star r then asteriskHandler r w d
    else findHandler mux r r w d.

(** [globalOptionsHandler]. *)
Definition globalOptionsHandler : Handler :=
  fun _ w d => (SetHeader "Content-Length" "0" w, d).

(** [serverHandler{srv}.ServeHTTP(w, r)] for a server with the handler
    [h]: the request [OPTIONS *] is the server's own. *)
Definition serverHandler (h : Handler) : Handler :=
  fun r w d =>
    if RequestURI_is_star r && bool_decide (Method r = "OPTIONS")
    then globalOptionsHandler r w d
    else h r w d.

(** The response a handler left, once the server has finished it. *)
Definition finished (x : ResponseWriter * D) : ResponseWriter * D :=
  (finishRequest (fst x), snd x).

(** The server answering one request: a new response, the handler, and
    the end of the request. *)
Definition Server_serve (h : Handler) (r : Request) (d : D) : ResponseWriter * D :=
  finished (serverHandler h r newResponse d).
End Handlers.

Arguments Handler : clear implicits.
Arguments routingNode : clear implicits.
Arguments ServeMux : clear implicits.

(** A handler instrumented with the log of the requests it was invoked
    on (most recent first). *)
Definition traced {D : Type} (next : Handler D) : Handler (D * list Request) :=
  fun r w s =>
    let '(w', d') := next r w (fst s) in
    (w', (d', r :: snd s)).

End http.

(** ** internal/auth/auth.go *)

Module auth.
Import http.

Definition missing_header_body : string :=
  "{" +:+ quoted "error" +:+ ":" +:+ quoted "missing authorization header" +:+ "}".
Definition invalid_format_body : string :=
  "{" +:+ quoted "error" +:+ ":" +:+ quoted "invalid authorization format" +:+ "}".
Definition invalid_token_body : string :=
  "{" +:+ quoted "error" +:+ ":" +:+ quoted "invalid token" +:+ "}".

(** The three bodies the middleware can answer with. *)
Definition rejection_bodies : list string :=
  [missing_header_body; invalid_format_body; invalid_token_body].

(** [NewAuthMiddleware(expectedToken)(next)]. *)
Definition NewAuthMiddleware {D : Type} (expectedToken : string)
    (next : Handler D) : Handler D :=
  fun r w d =>
    let authHeader := Header_Get (Header_of r) "Authorization" in
    if decide (authHeader = EmptyString) then
      (Error w missing_header_body StatusUnauthorized, d)
    else
      let parts := strings.SplitN authHeader " " 2 in
      match parts with
      | [scheme; token] =>
          if decide (scheme ≠ "Bearer") then
            (Error w invalid_format_body StatusUnauthorized, d)
          else if decide (token ≠ expectedToken) then
            (Error w invalid_token_body StatusUnauthorized, d)
          else next r w d
      | _ => (Error w invalid_format_body StatusUnauthorized, d)
      end.

End auth.

(** ** internal/config/config.go *)

Module strconv.

Definition is_digit (c : ascii) : bool :=
  (48 <=? nat_of_ascii c)%nat && (nat_of_ascii c <=? 57)%nat.

Definition digit_value (c : ascii) : Z := Z.of_nat (nat_of_ascii c) - 48.

(** The value of a string of decimal digits, [None] when some character
    is not a digit. *)
Fixpoint digits_value (acc : Z) (s : string) : option Z :=
  match s with
  | EmptyString => Some acc
  | String c s' =>
      if is_digit c then digits_value (acc * 10 + digit_value c) s' else None
  end.

Definition min_int : Z := - 2 ^ 63.
Definition max_int : Z := 2 ^ 63 - 1.

(** [strconv.Atoi(s)] on a 64-bit platform: an optional sign followed by
    one or more decimal digits, within the range of [int]; [None] stands
    for a non-nil error. *)
Definition Atoi (s : string) : option Z :=
  match s with
  | EmptyString => None
  | String c s' =>
      let '(neg, ds) :=
        if Ascii.eqb c "-" then (true, s')
        else if Ascii.eqb c "+" then (false, s')
        else (false, s) in
      match ds with
      | EmptyString => None
      | _ =>
          match digits_value 0 ds with
          | None => None
          | Some n =>
              let v := if neg : bool then - n else n in
              if (min_int <=? v) && (v <=? max_int) then Some v else None
          end
      end
  end.

(** [strconv.ParseBool(str)]. *)
Definition ParseBool (str : string) : option bool :=
  if bool_decide (str ∈ ["1"; "t"; "T"; "TRUE"; "true"; "True"]) then Some true
  else if bool_decide (str ∈ ["0"; "f"; "F"; "FALSE"; "false"; "False"]) then Some false
  else None.

End strconv.

Module config.

(** The process environment; [os.Getenv] gives the empty string for a
    variable that is not set. *)
Abbreviation Env := (gmap string string).

Definition os_Getenv (env : Env) (key : string) : string :=
  default EmptyString (env !! key).

Record Config := mkConfig {
  PortainerURL : string;
  PortainerAPIToken : string;
  MCPAccessToken : string;
  MCPPort : Z;
  MCPToolsFile : string;
  DisableVersionCheck : bool;
  ReadOnlyMode : bool;
  MCPBinaryPath : string;
}.

Definition getEnvOrDefault (env : Env) (key defaultVal : string) : string :=
  let val := os_Getenv env key in
  if decide (val ≠ EmptyString) then val else defaultVal.

Definition getEnvAsIntOrDefault (env : Env) (key : string) (defaultVal : Z) : Z :=
  let val := os_Getenv env key in
  if decide (val ≠ EmptyString) then
    match strconv.Atoi val with
    | Some intVal => intVal
    | None => defaultVal
    end
  else defaultVal.

Definition getEnvAsBoolOrDefault (env : Env) (key : string) (defaultVal : bool) : bool :=
  let val := os_Getenv env key in
  if decide (val ≠ EmptyString) then
    match strconv.ParseBool val with
    | Some boolVal => boolVal
    | None => defaultVal
    end
  else defaultVal.

(** [LoadConfig()]: the configuration, or the error message. *)
Definition LoadConfig (env : Env) : Config + string :=
  let cfg := {|
    PortainerURL := getEnvOrDefault env "PORTAINER_URL" "http://portainer:9000";
    PortainerAPIToken := os_Getenv env "PORTAINER_API_TOKEN";
    MCPAccessToken := os_Getenv env "MCP_ACCESS_TOKEN";
    MCPPort := getEnvAsIntOrDefault env "MCP_PORT" 8080;
    MCPToolsFile := os_Getenv env "MCP_TOOLS_FILE";
    DisableVersionCheck := getEnvAsBoolOrDefault env "DISABLE_VERSION_CHECK" false;
    ReadOnlyMode := getEnvAsBoolOrDefault env "READ_ONLY_MODE" false;
    MCPBinaryPath := getEnvOrDefault env "MCP_BINARY_PATH" "/app/portainer-mcp";
  |} in
  if decide (PortainerAPIToken cfg = EmptyString) then
    inr "PORTAINER_API_TOKEN is required"
  else if decide (MCPAccessToken cfg = EmptyString) then
    inr "MCP_ACCESS_TOKEN is required"
  else inl cfg.

End config.

(** ** os/exec and the MCP SDK, as far as the bridge uses them *)

Module exec.

(** [exec.Cmd]: the program to run, the argument vector, [Args] starting
    with the program name as [exec.Command] builds it, and the error of the
    lookup, if any. *)
Record Cmd := mkCmd {
  Path : string;
  Args : list string;
  Err : option string;
}.

(** The operating system as the bridge could touch it: the executables
    that can be started, what [exec.LookPath] answers for a file name (the
    path found, empty for none, and the error), and the child processes
    started so far. *)
Record OS := mkOS {
  executables : gset string;
  LookPath : string -> string * option string;
  processes : list Cmd;
}.

(** [filepath.Base(path)] on a Unix system: the last element of the path,
    trailing slashes apart; [.] for the empty path and a slash for a path
    of slashes only. *)
Definition filepath_Base (path : string) : string :=
  if decide (path = EmptyString) then "."
  else List.last (filter (fun e => e ≠ EmptyString) (http.segments path)) "/".

(** [exec.Command(name, arg...)].  A name without a path separator is
    looked up: the path found becomes [Path], the error of the lookup
    [Err]. *)
Definition Command (os : OS) (name : string) (arg : list string) : Cmd :=
  let cmd := {| Path := name; Args := name :: arg; Err := None |} in
  if decide (filepath_Base name = name) then
    let '(lp, err) := LookPath os name in
    {| Path := if decide (lp ≠ EmptyString) then lp else Path cmd;
       Args := Args cmd;
       Err := err |}
  else cmd.

(** [exec.CommandContext(ctx, name, arg...)] builds the same command and
    remembers the context. *)
Definition CommandContext (os : OS) (name : string) (arg : list string) : Cmd :=
  Command os name arg.

(** [cmd.Start()]: a child process, or the error of the lookup or of a
    program that cannot be started. *)
Definition Start (cmd : Cmd) (os : OS) : option string * OS :=
  match Err cmd with
  | Some err => (Some err, os)
  | None =>
      if decide (Path cmd = EmptyString) then (Some "exec: no command", os)
      else if decide (Path cmd ∈ executables os) then
        (None, {| executables := executables os; LookPath := LookPath os;
                  processes := cmd :: processes os |})
      else (Some "exec: no such file or directory", os)
  end.

End exec.

Module mcp.

Record Implementation := mkImplementation {
  Name : string;
  Version : string;
}.

(** An [mcp.Server]: its implementation details, the tools registered on
    it and the transports it is connected to. *)
Record Server := mkServer {
  impl : Implementation;
  tools : list string;
  transports : list exec.Cmd;
}.

(** [mcp.NewServer(impl, &mcp.ServerOptions{})]: a server with nothing
    registered and nothing connected. *)
Definition NewServer (i : Implementation) : Server :=
  {| impl := i; tools := []; transports := [] |}.

End mcp.

(** ** internal/bridge/bridge.go *)

Module bridge.
Import config exec.

(** The argument slice [args] both functions of the file build. *)
Definition portainer_args (cfg : Config) : list string :=
  let args := ["--server"; PortainerURL cfg; "--api-token"; PortainerAPIToken cfg] in
  let args :=
    if decide (MCPToolsFile cfg ≠ EmptyString)
    then (args ++ ["--tools-file"; MCPToolsFile cfg])%list else args in
  let args :=
    if DisableVersionCheck cfg then (args ++ ["--disable-version-check"])%list else args in
  let args :=
    if ReadOnlyMode cfg then (args ++ ["--read-only"])%list else args in
  args.

(** The command [CreateMCPServer] builds in its local [cmd]. *)
Definition CreateMCPServer_cmd (cfg : Config) (os : OS) : Cmd :=
  CommandContext os (MCPBinaryPath cfg) (portainer_args cfg).

(** [CreateMCPServer(ctx, cfg)]: the server and the error ([None] for
    nil), and the operating system afterwards.  The command is built and
    dropped ([_ = cmd]); the server is returned as [mcp.NewServer] made
    it. *)
Definition CreateMCPServer (cfg : Config) (os : OS)
    : (option mcp.Server * option string) * OS :=
  let cmd := CreateMCPServer_cmd cfg os in
  let _ := cmd in
  let impl := {| mcp.Name := "portainer-mcp-wrapper"; mcp.Version := "1.0.0" |} in
  let server := mcp.NewServer impl in
  ((Some server, None), os).

(** [GetPortainerCommand(cfg)]. *)
Definition GetPortainerCommand (cfg : Config) (os : OS) : Cmd :=
  Command os (MCPBinaryPath cfg) (portainer_args cfg).

End bridge.

(** ** cmd/wrapper/main.go *)

Module wrapper.
Import http config.

Definition health_body : string :=
  "{" +:+ quoted "status" +:+ ":" +:+ quoted "healthy" +:+ ","
      +:+ quoted "service" +:+ ":" +:+ quoted "portainer-mcp-wrapper" +:+ ","
      +:+ quoted "version" +:+ ":" +:+ quoted "1.0.0" +:+ "}".

(** [healthCheckHandler(w, r)]. *)
Definition healthCheckHandler (w : ResponseWriter) (r : Request) : ResponseWriter :=
  let w := SetHeader "Content-Type" "application/json" w in
  let w := WriteHeader StatusOK w in
  Write health_body w.

(** The closure [getServer] of [main]: the request is not used. *)
Definition getServer (cfg : Config) (req : Request) (os : exec.OS)
    : option mcp.Server * exec.OS :=
  match bridge.CreateMCPServer cfg os with
  | ((_, Some err), os') => (None, os')
  | ((server, None), os') => (server, os')
  end.

(** The command the call [getServer(req)] builds on the way: the local
    [cmd] of its call of [bridge.CreateMCPServer]. *)
Definition getServer_cmd (cfg : Config) (req : Request) (os : exec.OS) : exec.Cmd :=
  bridge.CreateMCPServer_cmd cfg os.

Section Main.
Context {D : Type}.
(** [mcp.NewStreamableHTTPHandler] of the SDK, given the server factory. *)
Variable NewStreamableHTTPHandler :
  (Request -> exec.OS -> option mcp.Server * exec.OS) -> Handler D.
Variable cfg : Config.

Definition handler : Handler D := NewStreamableHTTPHandler (getServer cfg).

Definition authHandler : Handler D :=
  auth.NewAuthMiddleware (MCPAccessToken cfg) handler.

(** The routes [main] registers, in its order. *)
Definition mux : ServeMux D :=
  let mux := NewServeMux in
  let mux := Handle "/" authHandler mux in
  let mux := Handle "/health" (HandlerFunc healthCheckHandler) mux in
  mux.

(** The server [srv] of [main], whose handler is the mux, answering one
    request. *)
Definition serve (r : Request) (d : D) : ResponseWriter * D :=
  Server_serve (mux_ServeHTTP mux) r d.
End Main.

(** The escaped paths the pattern [/health] matches: a slash and one
    segment that reads [health] once its percent escapes are decoded, as
    [/health] itself and [/%68ealth]. *)
Definition names_health (path : string) : bool :=
  match path with
  | String c seg =>
      Ascii.eqb c "/"
      && bool_decide (strings.IndexByte seg "/" = None)
      && String.eqb (pathUnescape seg) "health"
  | EmptyString => false
  end.

End wrapper.


(** ** The message codec of the specification (section 4.2) *)

Module codec.

(** Modelled from the spec: the numeric values of a structured message.
    The repository has no codec (the bridge leaves the transport to the
    subprocess unwritten), so the values are those the spec names: numbers,
    of which the non-finite ones cannot be written as JSON.  A finite
    number is a decimal, [mantissa] times ten to the [exponent]. *)
Inductive jnumber : Type :=
| JDec (mantissa exponent : Z)
| JNaN
| JInf (negative : bool).

(** An integer as a number. *)
Definition JInt (z : Z) : jnumber := JDec z 0.

(** Modelled from the spec: a Message, "a single line of serialized
    structured data (JSON-RPC request, response, or notification)", as the
    JSON value it carries.  Object members keep their order. *)
#[warnings="-register-all"]
Inductive json : Type :=
| JNull
| JBool (b : bool)
| JNum (n : jnumber)
| JStr (s : string)
| JArr (items : list json)
| JObj (members : list (string * json)).

Definition Message : Type := json.

(** Modelled from the spec: [EncodeError], raised for "a value that cannot
    round-trip (e.g., non-finite numeric value)". *)
Inductive EncodeError : Type := NonFiniteNumber.

(** Modelled from the spec: [DecodeError{offset, cause}], for malformed
    JSON, a missing correlation field where one is expected, or an empty
    line. *)
Inductive DecodeCause : Type := EmptyLine | MalformedJSON | MissingCorrelationId.

Record DecodeError : Type := mkDecodeError {
  offset : nat;
  cause : DecodeCause;
}.

(** Modelled from the spec: the messages [encode] accepts, those without a
    non-finite number anywhere. *)
Fixpoint encodable (m : json) : bool :=
  match m with
  | JNull | JBool _ | JStr _ => true
  | JNum (JDec _ _) => true
  | JNum _ => false
  | JArr items => forallb encodable items
  | JObj members => forallb (fun kv => encodable (snd kv)) members
  end.

(** *** Writing *)

Definition backslash : ascii := ascii_of_nat 92.
Definition quote_char : ascii := ascii_of_nat 34.
Definition newline_char : ascii := ascii_of_nat 10.

Definition hex_digit (n : nat) : ascii :=
  match String.get n "0123456789abcdef" with
  | Some c => c
  | None => "0"%char
  end.

(** Modelled from the spec: one character of a JSON string literal on a
    single line: the quote and the backslash are escaped with a backslash,
    a control character (the newline among them) is written as a [\u00XX]
    escape, any other byte stands for itself. *)
Definition escape_char (c : ascii) : string :=
  if Ascii.eqb c quote_char then String backslash (String quote_char EmptyString)
  else if Ascii.eqb c backslash then String backslash (String backslash EmptyString)
  else if (nat_of_ascii c <? 32)%nat then
    String backslash
      (String "u" (String "0" (String "0"
        (String (hex_digit (nat_of_ascii c / 16))
          (String (hex_digit (nat_of_ascii c mod 16)) EmptyString)))))
  else String c EmptyString.

Fixpoint escape (s : string) : string :=
  match s with
  | EmptyString => EmptyString
  | String c s' => escape_char c +:+ escape s'
  end.

Definition render_string (s : string) : string :=
  String quote_char (escape s +:+ String quote_char EmptyString).

Fixpoint render_uint (d : Decimal.uint) : string :=
  match d with
  | Decimal.Nil => EmptyString
  | Decimal.D0 d => String "0" (render_uint d)
  | Decimal.D1 d => String "1" (render_uint d)
  | Decimal.D2 d => String "2" (render_uint d)
  | Decimal.D3 d => String "3" (render_uint d)
  | Decimal.D4 d => String "4" (render_uint d)
  | Decimal.D5 d => String "5" (render_uint d)
  | Decimal.D6 d => String "6" (render_uint d)
  | Decimal.D7 d => String "7" (render_uint d)
  | Decimal.D8 d => String "8" (render_uint d)
  | Decimal.D9 d => String "9" (render_uint d)
  end.

(** The decimal numeral of an integer, without leading zeros. *)
Definition render_int (z : Z) : string :=
  match Z.to_int z with
  | Decimal.Pos d => render_uint d
  | Decimal.Neg d => String "-" (render_uint d)
  end.

(** A finite number is written as its mantissa, followed by [e] and the
    exponent unless the exponent is zero. *)
Definition render_number (n : jnumber) : string :=
  match n with
  | JDec m e =>
      render_int m +:+ (if e =? 0 then EmptyString else String "e" (render_int e))
  | JNaN => "NaN"
  | JInf false => "Infinity"
  | JInf true => "-Infinity"
  end.

Fixpoint join (sep : string) (parts : list string) : string :=
  match parts with
  | [] => EmptyString
  | [p] => p
  | p :: rest => p +:+ sep +:+ join sep rest
  end.

(** Modelled from the spec: "canonical single-line JSON", the text of a
    value without any white space. *)
Fixpoint render (m : json) : string :=
  match m with
  | JNull => "null"
  | JBool true => "true"
  | JBool false => "false"
  | JNum n => render_number n
  | JStr s => render_string s
  | JArr items => "[" +:+ join "," (map render items) +:+ "]"
  | JObj members =>
      "{" +:+ join "," (map (fun kv => render_string (fst kv) +:+ ":" +:+ render (snd kv))
                            members) +:+ "}"
  end.

(** Modelled from the spec: [encode(message) -> bytes], which "serializes a
    structured message to canonical single-line JSON with no embedded
    newline, appends exactly one newline terminator; fails with
    [EncodeError] if the message contains a value that cannot round-trip". *)
Definition encode (m : Message) : string + EncodeError :=
  if encodable m then inl (render m +:+ newline) else inr NonFiniteNumber.

(** *** Reading *)

(** A parser consumes a prefix of its input and gives a value with the
    rest of the input, or stops at the input it could not read. *)
Definition parsed (A : Type) : Type := (A * string) + string.

Definition bind_parsed {A B : Type} (x : parsed A) (k : A -> string -> parsed B)
    : parsed B :=
  match x with
  | inl (a, rest) => k a rest
  | inr at_ => inr at_
  end.

Definition is_ws (c : ascii) : bool :=
  Ascii.eqb c " " || Ascii.eqb c (ascii_of_nat 9) || Ascii.eqb c (ascii_of_nat 13).

(** Blanks between the tokens of a line: space, tab, carriage return. *)
Fixpoint skip_ws (s : string) : string :=
  match s with
  | EmptyString => EmptyString
  | String c s' => if is_ws c then skip_ws s' else s
  end.

(** The input must go on with [word]. *)
Fixpoint expect {A : Type} (word : string) (value : A) (s : string) : parsed A :=
  match word with
  | EmptyString => inl (value, s)
  | String w word' =>
      match s with
      | String c s' => if Ascii.eqb c w then expect word' value s' else inr s
      | EmptyString => inr s
      end
  end.

Definition hex_value (c : ascii) : option N :=
  let n := N_of_ascii c in
  if (48 <=? n)%N && (n <=? 57)%N then Some (n - 48)%N
  else if (97 <=? n)%N && (n <=? 102)%N then Some (n - 87)%N
  else if (65 <=? n)%N && (n <=? 70)%N then Some (n - 55)%N
  else None.

Definition hex4 (a b c d : ascii) : option N :=
  match hex_value a, hex_value b, hex_value c, hex_value d with
  | Some x, Some y, Some z, Some w => Some (((x * 16 + y) * 16 + z) * 16 + w)%N
  | _, _, _, _ => None
  end.

(** The UTF-8 bytes of a code point of the basic plane; the halves of a
    surrogate pair are not read. *)
Definition utf8 (n : N) : option string :=
  if (n <? 128)%N then Some (String (ascii_of_N n) EmptyString)
  else if (n <? 2048)%N then
    Some (String (ascii_of_N (192 + n / 64))
           (String (ascii_of_N (128 + n mod 64)) EmptyString))
  else if (55296 <=? n)%N && (n <=? 57343)%N then None
  else
    Some (String (ascii_of_N (224 + n / 4096))
           (String (ascii_of_N (128 + (n / 64) mod 64))
             (String (ascii_of_N (128 + n mod 64)) EmptyString))).

(** The character a one-letter escape stands for. *)
Definition unescape (e : ascii) : option ascii :=
  if Ascii.eqb e quote_char then Some quote_char
  else if Ascii.eqb e backslash then Some backslash
  else if Ascii.eqb e "/" then Some "/"%char
  else if Ascii.eqb e "b" then Some (ascii_of_nat 8)
  else if Ascii.eqb e "f" then Some (ascii_of_nat 12)
  else if Ascii.eqb e "n" then Some (ascii_of_nat 10)
  else if Ascii.eqb e "r" then Some (ascii_of_nat 13)
  else if Ascii.eqb e "t" then Some (ascii_of_nat 9)
  else None.

Definition prepend (bytes : string) (x : parsed string) : parsed string :=
  match x with
  | inl (s, rest) => inl (bytes +:+ s, rest)
  | inr at_ => inr at_
  end.

(** Modelled from the spec: reading a string literal, part of [decode].
    The characters after the opening quote, up to the closing quote; a raw
    control character (a newline among them) is malformed. *)
Fixpoint parse_chars (s : string) : parsed string :=
  match s with
  | EmptyString => inr s
  | String c rest =>
      if Ascii.eqb c quote_char then inl (EmptyString, rest)
      else if Ascii.eqb c backslash then
        match rest with
        | EmptyString => inr s
        | String e rest1 =>
            if Ascii.eqb e "u" then
              match rest1 with
              | String h1 (String h2 (String h3 (String h4 rest2))) =>
                  match hex4 h1 h2 h3 h4 ≫= utf8 with
                  | Some bytes => prepend bytes (parse_chars rest2)
                  | None => inr s
                  end
              | _ => inr s
              end
            else
              match unescape e with
              | Some ch => prepend (String ch EmptyString) (parse_chars rest1)
              | None => inr s
              end
        end
      else if (nat_of_ascii c <? 32)%nat then inr s
      else prepend (String c EmptyString) (parse_chars rest)
  end.

Definition digit_of (c : ascii) : option (Decimal.uint -> Decimal.uint) :=
  if Ascii.eqb c "0" then Some Decimal.D0
  else if Ascii.eqb c "1" then Some Decimal.D1
  else if Ascii.eqb c "2" then Some Decimal.D2
  else if Ascii.eqb c "3" then Some Decimal.D3
  else if Ascii.eqb c "4" then Some Decimal.D4
  else if Ascii.eqb c "5" then Some Decimal.D5
  else if Ascii.eqb c "6" then Some Decimal.D6
  else if Ascii.eqb c "7" then Some Decimal.D7
  else if Ascii.eqb c "8" then Some Decimal.D8
  else if Ascii.eqb c "9" then Some Decimal.D9
  else None.

(** The longest run of decimal digits the input starts with. *)
Fixpoint scan_digits (s : string) : Decimal.uint * string :=
  match s with
  | EmptyString => (Decimal.Nil, s)
  | String c s' =>
      match digit_of c with
      | Some digit => let '(d, rest) := scan_digits s' in (digit d, rest)
      | None => (Decimal.Nil, s)
      end
  end.

(** A numeral is one or more digits without a leading zero. *)
Definition canonical (d : Decimal.uint) : bool :=
  match d with
  | Decimal.Nil => false
  | _ => Decimal.uint_beq (Decimal.unorm d) d
  end.

Definition scan_minus (s : string) : bool * string :=
  match s with
  | String c s' => if Ascii.eqb c "-" then (true, s') else (false, s)
  | EmptyString => (false, s)
  end.

(** The sign of an exponent may also be written as a plus. *)
Definition scan_sign (s : string) : bool * string :=
  match s with
  | String c s' =>
      if Ascii.eqb c "-" then (true, s')
      else if Ascii.eqb c "+" then (false, s')
      else (false, s)
  | EmptyString => (false, s)
  end.

(** The digits after a decimal point, none when there is no point. *)
Definition scan_fraction (s : string) : option (Decimal.uint * string) :=
  match s with
  | String c s' =>
      if Ascii.eqb c "." then
        let '(f, rest) := scan_digits s' in
        match f with
        | Decimal.Nil => None
        | _ => Some (f, rest)
        end
      else Some (Decimal.Nil, s)
  | EmptyString => Some (Decimal.Nil, s)
  end.

(** The exponent after an [e] or [E], zero when there is none. *)
Definition scan_exponent (s : string) : option (Z * string) :=
  match s with
  | String c s' =>
      if Ascii.eqb c "e" || Ascii.eqb c "E" then
        let '(neg, s1) := scan_sign s' in
        let '(x, rest) := scan_digits s1 in
        match x with
        | Decimal.Nil => None
        | _ => Some (if neg : bool then - Z.of_uint x else Z.of_uint x, rest)
        end
      else Some (0, s)
  | EmptyString => Some (0, s)
  end.

(** Modelled from the spec: reading a number, part of [decode]: an
    optional minus, the digits of the integer part, an optional fraction
    and an optional exponent.  The digits of the fraction go into the
    mantissa and lower the exponent. *)
Definition parse_number (s : string) : parsed json :=
  let '(neg, s1) := scan_minus s in
  let '(d, s2) := scan_digits s1 in
  if canonical d then
    match scan_fraction s2 with
    | None => inr s2
    | Some (f, s3) =>
        match scan_exponent s3 with
        | None => inr s3
        | Some (x, s4) =>
            let digits := Z.of_uint (Decimal.app d f) in
            let mantissa := if neg : bool then - digits else digits in
            inl (JNum (JDec mantissa (x - Z.of_nat (Decimal.nb_digits f))), s4)
        end
    end
  else inr s.

(** Modelled from the spec: reading one JSON value, part of [decode].
    The value may come after blanks; [fuel] bounds the nesting and the
    number of elements read. *)
Fixpoint parse_value (fuel : nat) (s : string) : parsed json :=
  match fuel with
  | O => inr s
  | S fuel' =>
      match skip_ws s with
      | EmptyString => inr EmptyString
      | String c rest as s1 =>
          if Ascii.eqb c "n" then expect "ull" JNull rest
          else if Ascii.eqb c "t" then expect "rue" (JBool true) rest
          else if Ascii.eqb c "f" then expect "alse" (JBool false) rest
          else if Ascii.eqb c quote_char then
            bind_parsed (parse_chars rest) (fun str rest' => inl (JStr str, rest'))
          else if Ascii.eqb c "[" then
            match skip_ws rest with
            | String c' rest' as items =>
                if Ascii.eqb c' "]" then inl (JArr [], rest')
                else bind_parsed (parse_items fuel' items)
                       (fun vs rest'' => inl (JArr vs, rest''))
            | EmptyString => inr EmptyString
            end
          else if Ascii.eqb c "{" then
            match skip_ws rest with
            | String c' rest' as members =>
                if Ascii.eqb c' "}" then inl (JObj [], rest')
                else bind_parsed (parse_members fuel' members)
                       (fun ms rest'' => inl (JObj ms, rest''))
            | EmptyString => inr EmptyString
            end
          else parse_number s1
      end
  end
with parse_items (fuel : nat) (s : string) : parsed (list json) :=
  match fuel with
  | O => inr s
  | S fuel' =>
      bind_parsed (parse_value fuel' s) (fun v rest =>
        match skip_ws rest with
        | String c rest' as here =>
            if Ascii.eqb c "," then
              bind_parsed (parse_items fuel' rest') (fun vs rest'' => inl (v :: vs, rest''))
            else if Ascii.eqb c "]" then inl ([v], rest')
            else inr here
        | EmptyString => inr EmptyString
        end)
  end
with parse_members (fuel : nat) (s : string) : parsed (list (string * json)) :=
  match fuel with
  | O => inr s
  | S fuel' =>
      match skip_ws s with
      | String q key_on as here =>
          if Ascii.eqb q quote_char then
            bind_parsed (parse_chars key_on) (fun key rest =>
              match skip_ws rest with
              | String c rest' as colon =>
                  if Ascii.eqb c ":" then
                    bind_parsed (parse_value fuel' rest') (fun v rest'' =>
                      match skip_ws rest'' with
                      | String c' rest3 as here' =>
                          if Ascii.eqb c' "," then
                            bind_parsed (parse_members fuel' rest3)
                              (fun ms rest4 => inl ((key, v) :: ms, rest4))
                          else if Ascii.eqb c' "}" then inl ([(key, v)], rest3)
                          else inr here'
                      | EmptyString => inr EmptyString
                      end)
                  else inr colon
              | EmptyString => inr EmptyString
              end)
          else inr here
      | EmptyString => inr EmptyString
      end
  end.

(** The line without its newline terminator, when it has one. *)
Fixpoint strip_newline (bytes : string) : string :=
  match bytes with
  | EmptyString => EmptyString
  | String c EmptyString => if Ascii.eqb c newline_char then EmptyString else bytes
  | String c rest => String c (strip_newline rest)
  end.

(** The correlation field of a message: the member [id] of an object. *)
Definition has_id (m : json) : bool :=
  match m with
  | JObj members => existsb (fun kv => String.eqb (fst kv) "id") members
  | _ => false
  end.

(** Modelled from the spec: [decode(bytes) -> Message], which "parses one
    line; fails with [DecodeError{offset, cause}] on malformed JSON, on a
    message missing a required correlation field when one is expected, or
    on a line that is empty".  [expect_id] says whether a correlation field
    is expected. *)
Definition decode (expect_id : bool) (bytes : string) : Message + DecodeError :=
  let line := strip_newline bytes in
  let error_at (rest : string) :=
    inr {| offset := String.length line - String.length rest; cause := MalformedJSON |} in
  match skip_ws line with
  | EmptyString => inr {| offset := 0; cause := EmptyLine |}
  | _ =>
      match parse_value (String.length line) line with
      | inr rest => error_at rest
      | inl (m, rest) =>
          match skip_ws rest with
          | EmptyString =>
              if expect_id && negb (has_id m)
              then inr {| offset := 0; cause := MissingCorrelationId |}
              else inl m
          | String _ _ as rest' => error_at rest'
          end
      end
  end.

(** *** Measures used in the proofs about the codec *)

(** Induction on a JSON value with the property known of every element of
    an array and every member of an object. *)
Section json_induction.
Variable P : json -> Prop.
Hypothesis HNull : P JNull.
Hypothesis HBool : forall b, P (JBool b).
Hypothesis HNum : forall n, P (JNum n).
Hypothesis HStr : forall s, P (JStr s).
Hypothesis HArr : forall items, Forall P items -> P (JArr items).
Hypothesis HObj : forall members, Forall (fun kv => P (snd kv)) members -> P (JObj members).

Fixpoint json_ind' (m : json) : P m :=
  match m with
  | JNull => HNull
  | JBool b => HBool b
  | JNum n => HNum n
  | JStr s => HStr s
  | JArr items =>
      HArr items
        ((fix all (l : list json) : Forall P l :=
            match l with
            | [] => @List.Forall_nil _ P
            | v :: l' => @List.Forall_cons _ P v l' (json_ind' v) (all l')
            end) items)
  | JObj members =>
      HObj members
        ((fix all (l : list (string * json)) : Forall (fun kv => P (snd kv)) l :=
            match l with
            | [] => @List.Forall_nil _ _
            | kv :: l' => @List.Forall_cons _ _ kv l' (json_ind' (snd kv)) (all l')
            end) members)
  end.
End json_induction.

(** The fuel [parse_value] needs to read a value back: one unit per value
    and one per element or member. *)
Fixpoint json_size (m : json) : nat :=
  match m with
  | JArr items => S (list_sum (map (fun v => S (json_size v)) items))
  | JObj members => S (list_sum (map (fun kv => S (json_size (snd kv))) members))
  | _ => 1%nat
  end.

(** No newline character occurs in the string. *)
Fixpoint no_newline (s : string) : bool :=
  match s with
  | EmptyString => true
  | String c s' => negb (Ascii.eqb c newline_char) && no_newline s'
  end.

(** The string does not go on with a digit. *)
Definition no_digit (rest : string) : Prop :=
  match rest with
  | EmptyString => True
  | String c _ => digit_of c = None
  end.

(** What may come after a number: nothing that would continue it (a digit,
    a decimal point or an exponent mark). *)
Definition follows (rest : string) : Prop :=
  match rest with
  | EmptyString => True
  | String c _ =>
      digit_of c = None /\ Ascii.eqb c "." = false /\
      Ascii.eqb c "e" = false /\ Ascii.eqb c "E" = false
  end.

(** The first character of a token: not a blank and not a closing bracket. *)
Definition token_start (s : string) : Prop :=
  match s with
  | EmptyString => False
  | String c _ => is_ws c = false /\ Ascii.eqb c "]" = false
  end.

(** A numeral starts with a digit or the minus sign. *)
Definition numeral_start (s : string) : Prop :=
  match s with
  | EmptyString => False
  | String c _ => Ascii.eqb c "-" = true \/ is_Some (digit_of c)
  end.

(** The text of one member of an object. *)
Definition member_text (kv : string * json) : string :=
  render_string (fst kv) +:+ ":" +:+ render (snd kv).

(** [m], written and followed by [rest], is read back with [rest] left
    over, given fuel for its size. *)
Definition reads_back (m : json) : Prop :=
  forall fuel rest,
    (json_size m <= fuel)%nat -> follows rest ->
    parse_value fuel (render m +:+ rest) = inl (m, rest).

End codec.

(** ** The transport bridge of the specification (sections 3, 4.3 and 4.4) *)

Module transport.
Import codec.

(** Modelled from the spec: the lifecycle state of a Subprocess Handle,
    "{starting, running, exited, failed}".  The repository never starts the
    subprocess, so the handle, the pending requests and the correlation
    table below follow the words of the specification. *)
Inductive Lifecycle : Type := Starting | Running | Exited | Failed.

(** Modelled from the spec: the Subprocess Handle, with its process
    identifier, launch arguments, the lines written to its input stream and
    its lifecycle state. *)
Record SubprocessHandle : Type := mkHandle {
  pid : Z;
  launch_arguments : list string;
  stdin : list string;
  lifecycle : Lifecycle;
}.

(** Modelled from the spec: a Pending Request, "a request sent to the
    subprocess awaiting a correlated response", kept under its correlation
    identifier, with its submission time, its deadline and the session
    that issued it. *)
Record PendingRequest : Type := mkPending {
  submitted : nat;
  deadline : nat;
  owner : Z;
}.

(** Modelled from the spec: the state the Transport Bridge owns: the time,
    the configured deadline for a response, the correlation table and the
    subprocess. *)
Record Bridge : Type := mkBridge {
  clock : nat;
  timeout : nat;
  table : gmap Z PendingRequest;
  subprocess : SubprocessHandle;
}.

(** Modelled from the spec: the errors of [handleRequest]. *)
Inductive Error : Type :=
| EncodeFailed (e : EncodeError)
| UpstreamError
| TimeoutError
| SubprocessDiedError.

(** What the slot of a Pending Request is filled with. *)
Inductive Resolution : Type :=
| Response (m : Message)
| Failure (e : Error).

(** What can happen while a caller waits: a unit of time passes, a response
    line with a correlation identifier is decoded from the subprocess's
    output, or the subprocess exits. *)
Inductive Event : Type :=
| Tick
| ResponseLine (id : Z) (response : Message)
| ProcessExit.

(** Modelled from the spec: [writeLine(handle, bytes)], which fails "when
    the input stream is closed or the process has exited". *)
Definition writeLine (h : SubprocessHandle) (bytes : string) : SubprocessHandle + Error :=
  match lifecycle h with
  | Running =>
      inl {| pid := pid h; launch_arguments := launch_arguments h;
             stdin := (stdin h ++ [bytes])%list; lifecycle := Running |}
  | _ => inr UpstreamError
  end.

(** Modelled from the spec: the first half of [handleRequest], which
    "encodes and writes the message to the bound subprocess, creates a
    Pending Request"; the deadline is the configured time after now. *)
Definition submit (session id : Z) (m : Message) (b : Bridge) : Bridge + Error :=
  match encode m with
  | inr e => inr (EncodeFailed e)
  | inl bytes =>
      match writeLine (subprocess b) bytes with
      | inr e => inr e
      | inl h =>
          inl {| clock := clock b; timeout := timeout b;
                 table := <[id := {| submitted := clock b;
                                     deadline := (clock b + timeout b)%nat;
                                     owner := session |}]> (table b);
                 subprocess := h |}
      end
  end.

(** Modelled from the spec: the effect of an event on the bridge.  When
    time passes, the Pending Requests whose deadline is reached are evicted;
    a response line removes the Pending Request of its identifier, if any
    ([resolve]: "removed exactly once", an unknown identifier is dropped);
    on exit of the subprocess every Pending Request is failed and removed. *)
Definition step (ev : Event) (b : Bridge) : Bridge :=
  match ev with
  | Tick =>
      let now := S (clock b) in
      {| clock := now; timeout := timeout b;
         table := filter (fun kp => (now < deadline (snd kp))%nat) (table b);
         subprocess := subprocess b |}
  | ResponseLine id _ =>
      {| clock := clock b; timeout := timeout b;
         table := delete id (table b);
         subprocess := subprocess b |}
  | ProcessExit =>
      {| clock := clock b; timeout := timeout b;
         table := ∅;
         subprocess :=
           {| pid := pid (subprocess b);
              launch_arguments := launch_arguments (subprocess b);
              stdin := stdin (subprocess b); lifecycle := Exited |} |}
  end.

(** Modelled from the spec: what an event delivers to the caller waiting
    on [id]: the response of a matching line, [TimeoutError] once the
    deadline is reached, [SubprocessDiedError] when the process exits. *)
Definition resolution (ev : Event) (b : Bridge) (id : Z) : option Resolution :=
  match table b !! id with
  | None => None
  | Some p =>
      match ev with
      | Tick =>
          if decide (deadline p <= S (clock b))%nat
          then Some (Failure TimeoutError) else None
      | ResponseLine id' response =>
          if decide (id' = id) then Some (Response response) else None
      | ProcessExit => Some (Failure SubprocessDiedError)
      end
  end.

(** The bridge after a sequence of events. *)
Definition run (events : list Event) (b : Bridge) : Bridge :=
  fold_left (fun b ev => step ev b) events b.

(** Modelled from the spec: the second half of [handleRequest], which
    "waits for resolution up to a configurable deadline".  The caller is
    woken by the first event that resolves its request; [None] is a caller
    still waiting when the events end. *)
Fixpoint await (id : Z) (events : list Event) (b : Bridge) : option Resolution * Bridge :=
  match events with
  | [] => (None, b)
  | ev :: events' =>
      match resolution ev b id with
      | Some r => (Some r, step ev b)
      | None => await id events' (step ev b)
      end
  end.

(** Modelled from the spec: [handleRequest(session, message) -> response |
    fails with UpstreamError | fails with TimeoutError], for the message
    with the correlation identifier [id]. *)
Definition handleRequest (session id : Z) (m : Message) (events : list Event)
    (b : Bridge) : option Resolution * Bridge :=
  match submit session id m b with
  | inr e => (Some (Failure e), b)
  | inl b' => await id events b'
  end.

(** No event answers the request [id]: no response line carries it and the
    subprocess does not exit. *)
Definition unanswered (id : Z) (ev : Event) : Prop :=
  match ev with
  | Tick => True
  | ResponseLine id' _ => id' ≠ id
  | ProcessExit => False
  end.

(** The time that passes during the events. *)
Fixpoint ticks (events : list Event) : nat :=
  match events with
  | [] => O
  | Tick :: events' => S (ticks events')
  | _ :: events' => ticks events'
  end.

End transport.

(** ** Concrete requests and handlers used in the examples below *)

(** A request without credentials, and one with a given Authorization
    header. *)
Definition no_credentials : http.Request :=
  {| http.Method := "POST"; http.ProtoMajor := 1; http.ProtoMinor := 1;
     http.URL_EscapedPath := "/mcp"; http.Header_of := ∅ |}.

Definition with_authorization (value : string) : http.Request :=
  {| http.Method := "POST"; http.ProtoMajor := 1; http.ProtoMinor := 1;
     http.URL_EscapedPath := "/mcp";
     http.Header_of := {[ "Authorization" := [value] ]} |}.

Definition get_path (path : string) : http.Request :=
  {| http.Method := "GET"; http.ProtoMajor := 1; http.ProtoMinor := 1;
     http.URL_EscapedPath := path; http.Header_of := ∅ |}.


(** A request with a given method and path that presents a bearer token. *)
Definition bearer_request (method path token : string) : http.Request :=
  {| http.Method := method; http.ProtoMajor := 1; http.ProtoMinor := 1;
     http.URL_EscapedPath := path;
     http.Header_of := {[ "Authorization" := ["Bearer " +:+ token] ]} |}.

(** A handler that answers [ok], standing for the MCP handler. *)
Definition echo_handler : http.Handler unit :=
  fun _ w d => (http.Write "ok" w, d).

Definition example_config : config.Config :=
  {| config.PortainerURL := "http://portainer:9000";
     config.PortainerAPIToken := "ptr_token";
     config.MCPAccessToken := "s3cret";
     config.MCPPort := 8080;
     config.MCPToolsFile := EmptyString;
     config.DisableVersionCheck := false;
     config.ReadOnlyMode := true;
     config.MCPBinaryPath := "/app/portainer-mcp" |}.

(** A configuration whose executable does not exist, and an operating
    system with no executable at all. *)
Definition missing_binary_config : config.Config :=
  {| config.PortainerURL := "http://portainer:9000";
     config.PortainerAPIToken := "ptr_token";
     config.MCPAccessToken := "s3cret";
     config.MCPPort := 8080;
     config.MCPToolsFile := "/config/tools.yaml";
     config.DisableVersionCheck := true;
     config.ReadOnlyMode := false;
     config.MCPBinaryPath := "/nonexistent/portainer-mcp" |}.

Definition empty_os : exec.OS :=
  {| exec.executables := ∅;
     exec.LookPath := fun _ => (EmptyString, Some "executable file not found in $PATH");
     exec.processes := [] |}.

(** An operating system with a shell on its search path. *)
Definition shell_os : exec.OS :=
  {| exec.executables := {[ "/bin/sh" ]};
     exec.LookPath := fun file =>
       if decide (file = "sh") then ("/bin/sh", None)
       else (EmptyString, Some "executable file not found in $PATH");
     exec.processes := [] |}.

(** The request of the specification's scenario: the object with the
    members [id], the number 1, and [method], the string [ping]. *)
Definition ping_request : codec.Message :=
  codec.JObj [("id", codec.JNum (codec.JInt 1)); ("method", codec.JStr "ping")].

(** A bridge with one request of another session pending, and events in
    which that request is answered and time passes; a line for the
    identifier 42 comes when two units of time have passed. *)
Definition example_bridge : transport.Bridge :=
  {| transport.clock := 10%nat; transport.timeout := 2%nat;
     transport.table :=
       {[ 7 := {| transport.submitted := 9%nat; transport.deadline := 20%nat;
                  transport.owner := 2 |} ]};
     transport.subprocess :=
       {| transport.pid := 4711;
          transport.launch_arguments := ["--server"; "http://portainer:9000"];
          transport.stdin := [];
          transport.lifecycle := transport.Running |} |}.

Definition example_events : list transport.Event :=
  [transport.Tick; transport.ResponseLine 7 codec.JNull; transport.Tick;
   transport.ResponseLine 42 codec.JNull; transport.Tick].

(** ** Further notions used in the properties of the code *)

(** The string has a blank in it. *)
Fixpoint contains_space (s : string) : bool :=
  match s with
  | EmptyString => false
  | String c s' => Ascii.eqb c " " || contains_space s'
  end.

(** The verdict of [NewAuthMiddleware] on the value of the Authorization
    header: the body it rejects the request with, or none when the request
    goes on to the wrapped handler. *)
Definition auth_verdict (expectedToken authHeader : string) : option string :=
  if decide (authHeader = EmptyString) then Some auth.missing_header_body
  else
    match strings.SplitN authHeader " " 2 with
    | [scheme; token] =>
        if decide (scheme ≠ "Bearer") then Some auth.invalid_format_body
        else if decide (token ≠ expectedToken) then Some auth.invalid_token_body
        else None
    | _ => Some auth.invalid_format_body
    end.

(** The environment variables [LoadConfig] reads. *)
Definition config_variables : list string :=
  ["PORTAINER_URL"; "PORTAINER_API_TOKEN"; "MCP_ACCESS_TOKEN"; "MCP_PORT";
   "MCP_TOOLS_FILE"; "DISABLE_VERSION_CHECK"; "READ_ONLY_MODE"; "MCP_BINARY_PATH"].

(** The spellings [strconv.ParseBool] reads as true. *)
Definition true_spellings : list string := ["1"; "t"; "T"; "TRUE"; "true"; "True"].

(** An optional sign followed by one or more decimal digits. *)
Fixpoint all_digits (s : string) : bool :=
  match s with
  | EmptyString => true
  | String c s' => strconv.is_digit c && all_digits s'
  end.

Definition is_decimal (s : string) : bool :=
  match s with
  | EmptyString => false
  | String c s' =>
      if Ascii.eqb c "-" || Ascii.eqb c "+"
      then negb (String.eqb s' EmptyString) && all_digits s'
      else all_digits s
  end.

(** The decimal numeral of an integer, as [strconv.Itoa] writes it. *)
Definition decimal (z : Z) : string := NilZero.string_of_int (Z.to_int z).

(** An environment with both tokens and a port. *)
Definition example_env : config.Env :=
  {[ "PORTAINER_API_TOKEN" := "ptr_token"; "MCP_ACCESS_TOKEN" := "s3cret";
     "MCP_PORT" := "-1"; "READ_ONLY_MODE" := "T" ]}.

(** The environment that [example_config] is loaded from. *)
Definition loaded_env : config.Env :=
  {[ "PORTAINER_API_TOKEN" := "ptr_token"; "MCP_ACCESS_TOKEN" := "s3cret";
     "READ_ONLY_MODE" := "true" ]}.

(** [example_config] with another port, access token and executable. *)
Definition other_port_config : config.Config :=
  {| config.PortainerURL := "http://portainer:9000";
     config.PortainerAPIToken := "ptr_token";
     config.MCPAccessToken := "another";
     config.MCPPort := 9090;
     config.MCPToolsFile := EmptyString;
     config.DisableVersionCheck := false;
     config.ReadOnlyMode := true;
     config.MCPBinaryPath := "/usr/local/bin/portainer-mcp" |}.

(** ** Sanity checks of the embedding on concrete inputs *)

Example SplitN_bearer :
  strings.SplitN "Bearer abc def" " " 2 = ["Bearer"; "abc def"].
Proof. reflexivity. Qed.

Example SplitN_no_space : strings.SplitN "Bearer" " " 2 = ["Bearer"].
Proof. reflexivity. Qed.

Example SplitN_leading_space : strings.SplitN " x" " " 2 = [EmptyString; "x"].
Proof. reflexivity. Qed.

Example cleanPath_examples :
  http.cleanPath "/health" = "/health" /\
  http.cleanPath "//health" = "/health" /\
  http.cleanPath "/a/../health/" = "/health/" /\
  http.cleanPath "/a/./b//c" = "/a/b/c" /\
  http.cleanPath "/.." = "/" /\
  http.cleanPath "x" = "/x" /\
  http.cleanPath "/" = "/".
Proof. repeat split; reflexivity. Qed.

Example Atoi_examples :
  strconv.Atoi "8080" = Some 8080 /\
  strconv.Atoi "-12" = Some (-12) /\
  strconv.Atoi "+7" = Some 7 /\
  strconv.Atoi "80a" = None /\
  strconv.Atoi "-" = None /\
  strconv.Atoi " 80" = None /\
  strconv.Atoi "9223372036854775807" = Some 9223372036854775807 /\
  strconv.Atoi "9223372036854775808" = None /\
  strconv.Atoi "-9223372036854775808" = Some (-9223372036854775808).
Proof. repeat split; reflexivity. Qed.

Example ParseBool_examples :
  strconv.ParseBool "true" = Some true /\
  strconv.ParseBool "F" = Some false /\
  strconv.ParseBool "yes" = None /\
  strconv.ParseBool "tRUE" = None.
Proof. repeat split; vm_compute; reflexivity. Qed.

(** ** Lemmas on byte strings and [strings.SplitN] *)

Lemma slice_to_succ n c s : slice_to (S n) (String c s) = String c (slice_to n s).
Proof. reflexivity. Qed.

Lemma slice_to_zero s : slice_to 0 s = EmptyString.
Proof. by destruct s. Qed.

Lemma append_String c s t : String c s +:+ t = String c (s +:+ t).
Proof. reflexivity. Qed.

Lemma append_Empty t : EmptyString +:+ t = t.
Proof. reflexivity. Qed.

Lemma slice_split n s : s = slice_to n s +:+ slice_from n s.
Proof.
  revert s. induction n as [|n IH]; intros s.
  - by rewrite slice_to_zero.
  - destruct s as [|c s]; [done|].
    rewrite slice_to_succ, append_String. simpl. f_equal. apply IH.
Qed.

Lemma prefix_slice sep s :
  String.prefix sep s = true -> s = sep +:+ slice_from (String.length sep) s.
Proof.
  intros H. apply prefix_correct in H.
  rewrite <- H at 1. apply slice_split.
Qed.

Lemma Index_unfold s sep :
  strings.Index s sep =
    if String.prefix sep s then Some O
    else match s with
         | EmptyString => None
         | String _ s' => S <$> strings.Index s' sep
         end.
Proof. by destruct s. Qed.

Lemma Index_split s sep m :
  strings.Index s sep = Some m ->
  s = slice_to m s +:+ sep +:+ slice_from (m + String.length sep) s.
Proof.
  revert m. induction s as [|c s IH]; intros m; rewrite Index_unfold.
  - destruct (String.prefix sep EmptyString) eqn:Hp; [|done].
    intros [= <-]. by apply prefix_slice.
  - destruct (String.prefix sep (String c s)) eqn:Hp.
    + intros [= <-]. by apply prefix_slice in Hp.
    + destruct (strings.Index s sep) as [m'|] eqn:Hi; [|done].
      intros [= <-]. rewrite slice_to_succ, append_String.
      simpl. f_equal. by apply IH.
Qed.

Lemma SplitN_two h :
  h ≠ EmptyString ->
  strings.SplitN h " " 2 =
    match strings.Index h " " with
    | Some m => [slice_to m h; slice_from (m + 1) h]
    | None => [h]
    end.
Proof.
  intros Hne. destruct h as [|c h]; [done|].
  unfold strings.SplitN.
  assert (Nat.min 2 (String.length (String c h) + 1) - 1 = 1)%nat as ->
    by (cbn [String.length]; lia).
  reflexivity.
Qed.

Lemma prefix_empty s : String.prefix EmptyString s = true.
Proof. by destruct s. Qed.

Lemma Index_bearer tok : strings.Index ("Bearer " +:+ tok) " " = Some 6%nat.
Proof.
  rewrite !append_String, append_Empty.
  do 6 (rewrite Index_unfold; cbn [String.prefix]; simpl (ascii_dec _ _); cbv iota).
  rewrite Index_unfold. cbn [String.prefix]. simpl (ascii_dec _ _). cbv iota.
  by rewrite prefix_empty.
Qed.

Lemma cons_neq {A} (x : A) (l : list A) : x :: l ≠ l.
Proof. intros H. apply (f_equal List.length) in H. simpl in H. lia. Qed.

(** ** The authentication middleware *)

Section AuthMiddleware.
Import http auth.
Context {D : Type}.
Variable expectedToken : string.
Variable next : Handler D.

(** The middleware either hands the request to [next] unchanged, when the
    header is the scheme, one blank and the token, or answers itself with
    [http.Error] and leaves the rest alone. *)
Lemma NewAuthMiddleware_cases (r : Request) (w : ResponseWriter) (d : D) :
  (Header_Get (Header_of r) "Authorization" = "Bearer " +:+ expectedToken /\
   NewAuthMiddleware expectedToken next r w d = next r w d)
  \/
  (Header_Get (Header_of r) "Authorization" ≠ "Bearer " +:+ expectedToken /\
   exists body, body ∈ rejection_bodies /\
     NewAuthMiddleware expectedToken next r w d =
       (Error w body StatusUnauthorized, d)).
Proof.
  unfold NewAuthMiddleware, rejection_bodies.
  set (h := Header_Get (Header_of r) "Authorization").
  destruct (decide (h = EmptyString)) as [He|Hne].
  { right. split; [by rewrite He|]. eexists; split; [|done]. set_solver. }
  rewrite (SplitN_two h Hne).
  destruct (strings.Index h " ") as [m|] eqn:Hi.
  - pose proof (Index_split _ _ _ Hi) as Hsplit. simpl in Hsplit.
    destruct (decide (slice_to m h ≠ "Bearer")) as [Hs|Hs].
    { right. split.
      - intros Heq. rewrite Heq, Index_bearer in Hi. injection Hi as <-.
        apply Hs. by rewrite Heq.
      - eexists; split; [|done]. set_solver. }
    apply dec_stable in Hs.
    destruct (decide (slice_from (m + 1) h ≠ expectedToken)) as [Ht|Ht].
    { right. split.
      - intros Heq. rewrite Heq, Index_bearer in Hi. injection Hi as <-.
        apply Ht. by rewrite Heq.
      - eexists; split; [|done]. set_solver. }
    apply dec_stable in Ht.
    left. split; [|done]. rewrite Hsplit, Hs, Ht. reflexivity.
  - right. split.
    + intros Heq. by rewrite Heq, Index_bearer in Hi.
    + eexists; split; [|done]. set_solver.
Qed.
End AuthMiddleware.

(** ** Claims on the authentication middleware *)

Section AuthClaims.
Import http auth.
Context {D : Type}.

Lemma rejection_bodies_json body :
  body ∈ rejection_bodies ->
  exists msg, json_plain msg = true /\ body = json_error_object msg.
Proof.
  unfold rejection_bodies. rewrite !elem_of_cons, elem_of_nil.
  intros [->|[->|[->|[]]]]; eexists; (split; [|reflexivity]); reflexivity.
Qed.

Lemma Error_fresh (w : ResponseWriter) (body : string) (code : Z) :
  rw_status w = None ->
  Error w body code =
    {| rw_header :=
         <["X-Content-Type-Options" := ["nosniff"]]>
           (<["Content-Type" := ["text/plain; charset=utf-8"]]>
              (delete "Content-Length" (rw_header w)));
       rw_status := Some code;
       rw_body := rw_body w +:+ body +:+ newline |}.
Proof.
  intros Hw. unfold Error, Write, WriteHeader, SetHeader, DelHeader. simpl.
  by rewrite Hw.
Qed.

(** C1.  The middleware invokes the wrapped handler on a request exactly
    when the request's Authorization header is the string ["Bearer "]
    followed by the expected token; the comparison is an equality of byte
    strings, so the scheme keyword is case-sensitive.  When it does, the
    wrapped handler receives the request, the response writer and the
    downstream state unchanged and its result is the middleware's. *)
Theorem auth_passes_iff_exact_bearer (expectedToken : string) (next : Handler D)
    (r : Request) (w : ResponseWriter) (d : D) (log : list Request) :
  (snd (snd (NewAuthMiddleware expectedToken (traced next) r w (d, log))) = r :: log
     <-> Header_Get (Header_of r) "Authorization" = "Bearer " +:+ expectedToken)
  /\ (Header_Get (Header_of r) "Authorization" = "Bearer " +:+ expectedToken ->
       NewAuthMiddleware expectedToken next r w d = next r w d)
  /\ (Header_Get (Header_of r) "Authorization" ≠ "Bearer " +:+ expectedToken ->
       snd (snd (NewAuthMiddleware expectedToken (traced next) r w (d, log))) = log).
Proof.
  split; [|split].
  - destruct (NewAuthMiddleware_cases expectedToken (traced next) r w (d, log))
      as [[Hh ->]|[Hh (body & _ & ->)]].
    + split; [done|]. intros _. unfold traced. simpl. by destruct (next r w d).
    + simpl. split; [|done]. intros Hlog. symmetry in Hlog.
      by apply cons_neq in Hlog.
  - intros Hh.
    by destruct (NewAuthMiddleware_cases expectedToken next r w d)
      as [[_ ->]|[Hn _]].
  - intros Hn.
    by destruct (NewAuthMiddleware_cases expectedToken (traced next) r w (d, log))
      as [[Hh _]|[_ (body & _ & ->)]].
Qed.

(** C2.  A request whose Authorization header is missing, malformed or
    carries a wrong token (anything but ["Bearer "] followed by the
    expected token) is answered with status 401 and a body that is a JSON
    object with an [error] member followed by a newline; the wrapped
    handler is not invoked and the downstream state is unchanged. *)
Theorem auth_failure_unauthorized (expectedToken : string) (next : Handler D)
    (r : Request) (w : ResponseWriter) (d : D) (log : list Request) :
  rw_status w = None ->
  Header_Get (Header_of r) "Authorization" ≠ "Bearer " +:+ expectedToken ->
  exists msg,
    json_plain msg = true /\
    NewAuthMiddleware expectedToken (traced next) r w (d, log) =
      ({| rw_header :=
            <["X-Content-Type-Options" := ["nosniff"]]>
              (<["Content-Type" := ["text/plain; charset=utf-8"]]>
                 (delete "Content-Length" (rw_header w)));
          rw_status := Some StatusUnauthorized;
          rw_body := rw_body w +:+ json_error_object msg +:+ newline |},
       (d, log)).
Proof.
  intros Hw Hn.
  destruct (NewAuthMiddleware_cases expectedToken (traced next) r w (d, log))
    as [[Hh _]|[_ (body & Hbody & ->)]]; [done|].
  destruct (rejection_bodies_json body Hbody) as (msg & Hplain & ->).
  exists msg. split; [done|]. by rewrite Error_fresh.
Qed.
End AuthClaims.

Lemma auth_failure_unauthorized_witness :
  exists msg,
    json_plain msg = true /\
    auth.NewAuthMiddleware "s3cret" (http.traced echo_handler)
        (with_authorization "bearer s3cret") http.newResponse (tt, []) =
      ({| http.rw_header :=
            <["X-Content-Type-Options" := ["nosniff"]]>
              (<["Content-Type" := ["text/plain; charset=utf-8"]]>
                 (delete "Content-Length" (http.rw_header http.newResponse)));
          http.rw_status := Some http.StatusUnauthorized;
          http.rw_body :=
            http.rw_body http.newResponse +:+ json_error_object msg +:+ newline |},
       (tt, [])).
Proof.
  apply (auth_failure_unauthorized "s3cret" echo_handler
           (with_authorization "bearer s3cret") http.newResponse tt []).
  - reflexivity.
  - vm_compute. discriminate.
Defined.

Example auth_lower_case_scheme_rejected :
  auth.NewAuthMiddleware "s3cret" (http.traced echo_handler)
      (with_authorization "bearer s3cret") http.newResponse (tt, []) =
    (http.Error http.newResponse auth.invalid_format_body 401, (tt, [])).
Proof. vm_compute. reflexivity. Qed.

Example auth_right_token_accepted :
  auth.NewAuthMiddleware "s3cret" (http.traced echo_handler)
      (with_authorization "Bearer s3cret") http.newResponse (tt, []) =
    (http.Write "ok" http.newResponse, (tt, [with_authorization "Bearer s3cret"])).
Proof. vm_compute. reflexivity. Qed.

(** ** The routes of [main] *)

Lemma cleanPath_rooted p :
  http.cleanPath p = p -> exists p', p = String "/" p'.
Proof.
  unfold http.cleanPath. destruct p as [|c p]; [done|].
  destruct (Ascii.eqb c "/") eqn:Hc.
  { apply Ascii.eqb_eq in Hc as ->. eauto. }
  unfold http.path_Clean.
  intros H. exfalso.
  destruct (_ && _) in H; [destruct (_ && _) in H|];
    rewrite ?append_String, ?append_Empty in H;
    injection H as Hc' _; rewrite <- Hc' in Hc; done.
Qed.

(** A cleaned path starts with a slash. *)
Lemma cleanPath_is_rooted p : exists s, http.cleanPath p = String "/" s.
Proof.
  unfold http.cleanPath. destruct p as [|c p]; [by eexists|].
  assert (exists s, (if Ascii.eqb c "/" then String c p else "/" +:+ String c p)
                    = String "/" s) as [s ->].
  { destruct (Ascii.eqb c "/") eqn:Hc.
    - apply Ascii.eqb_eq in Hc as ->. eauto.
    - rewrite append_String, append_Empty. eauto. }
  unfold http.path_Clean.
  destruct (_ && _); [destruct (_ && _)|];
    rewrite ?append_String, ?append_Empty; eauto.
Qed.

Lemma slice_to_length s : slice_to (String.length s) s = s.
Proof.
  induction s as [|c s IH]; [done|].
  cbn [String.length]. by rewrite slice_to_succ, IH.
Qed.

Lemma slice_from_length s : slice_from (String.length s) s = EmptyString.
Proof. by induction s. Qed.

Lemma IndexByte_slice s c i :
  strings.IndexByte s c = Some i -> exists t, slice_from i s = String c t.
Proof.
  revert i. induction s as [|x s IH]; intros i; [done|]. cbn [strings.IndexByte].
  destruct (Ascii.eqb x c) eqn:Hx.
  - apply Ascii.eqb_eq in Hx as ->. intros [= <-]. by eexists.
  - destruct (strings.IndexByte s c) as [j|]; [|done].
    intros [= <-]. by apply IH.
Qed.

Lemma IndexByte_append s c t : strings.IndexByte (s +:+ String c t) c ≠ None.
Proof.
  induction s as [|x s IH].
  - rewrite append_Empty. cbn [strings.IndexByte]. by rewrite Ascii.eqb_refl.
  - rewrite append_String. cbn [strings.IndexByte].
    destruct (Ascii.eqb x c); [done|].
    by destruct (strings.IndexByte (s +:+ String c t) c).
Qed.

Lemma CountByte_append s c :
  strings.CountByte (s +:+ String c EmptyString) c = S (strings.CountByte s c).
Proof.
  induction s as [|x s IH].
  - rewrite append_Empty. cbn [strings.CountByte]. by rewrite Ascii.eqb_refl.
  - rewrite append_String. cbn [strings.CountByte].
    destruct (Ascii.eqb x c); by rewrite IH.
Qed.

(** The first segment of a path is [health], with nothing after it, when
    the path has no slash after its first byte and the rest of it decodes
    to [health]. *)
Lemma firstSegment_health c s :
  http.firstSegment (String c s) = ("health", EmptyString) <->
  strings.IndexByte s "/" = None /\ http.pathUnescape s = "health".
Proof.
  unfold http.firstSegment. case_decide as Hp.
  { injection Hp as -> ->. split; [done|]. by intros [_ ?]. }
  cbn [slice_from]. destruct (strings.IndexByte s "/") as [i|] eqn:Hi.
  - destruct (IndexByte_slice _ _ _ Hi) as [t ->].
    split; [done|]. by intros [? _].
  - rewrite slice_to_length, slice_from_length. split.
    + by intros [= ->].
    + by intros [_ ->].
Qed.

Lemma names_health_segment s :
  wrapper.names_health (String "/" s) = true <->
  http.firstSegment (String "/" s) = ("health", EmptyString).
Proof.
  rewrite firstSegment_health. unfold wrapper.names_health.
  rewrite Ascii.eqb_refl, andb_true_l, andb_true_iff, bool_decide_eq_true.
  by rewrite String.eqb_eq.
Qed.

Section RoutingTree.
Import http.
Context {D : Type}.
(** The handlers registered for [/] and for [/health]. *)
Variables rootHandler healthHandler : Handler D.

Local Abbreviation rootLeaf :=
  (mkNode (Some ({| pat_str := "/"; pat_method := EmptyString; pat_host := EmptyString;
                    pat_segments := [mkSegment EmptyString true true] |}, rootHandler))
     [] None None).
Local Abbreviation healthLeaf :=
  (mkNode (Some ({| pat_str := "/health"; pat_method := EmptyString;
                    pat_host := EmptyString;
                    pat_segments := [mkSegment "health" false false] |}, healthHandler))
     [] None None).
Local Abbreviation pathRoot :=
  (mkNode None [("health", healthLeaf)] (Some rootLeaf) None).
Local Abbreviation mux := (Handle "/health" healthHandler (Handle "/" rootHandler NewServeMux)).

(** The tree the two registrations build. *)
Lemma mux_tree :
  tree mux = mkNode None [] None (Some (mkNode None [] None (Some pathRoot))).
Proof. reflexivity. Qed.

Lemma matchPath_fuel_nil fuel path : matchPath_fuel fuel (@None (routingNode D)) path = None.
Proof. by destruct fuel. Qed.

Lemma matchPath_fuel_step fuel (n : routingNode D) path :
  matchPath_fuel (S fuel) (Some n) path =
    if decide (path = EmptyString) then
      match leaf n with
      | None => None
      | Some _ => Some n
      end
    else
      let '(seg, rest) := firstSegment path in
      match matchPath_fuel fuel (findChild n seg) rest with
      | Some l => Some l
      | None =>
          match (if decide (seg ≠ "/")
                 then matchPath_fuel fuel (emptyChild n) rest else None) with
          | Some l => Some l
          | None => multiChild n
          end
      end.
Proof. reflexivity. Qed.

Lemma length_slice_from (n : nat) (s : string) :
  (String.length (slice_from n s) <= String.length s)%nat.
Proof.
  revert s. induction n as [|n IH]; intros s; [done|].
  destruct s as [|c s]; [done|]. cbn [slice_from String.length].
  specialize (IH s). lia.
Qed.

(** [firstSegment] leaves a shorter path. *)
Lemma firstSegment_shorter (path : string) :
  path ≠ EmptyString ->
  (String.length (firstSegment path).2 < String.length path)%nat.
Proof.
  intros Hne. unfold firstSegment. case_decide as Hp.
  { rewrite Hp. cbn. lia. }
  destruct path as [|c s]; [done|]. cbn [slice_from snd String.length].
  pose proof (length_slice_from
                (match strings.IndexByte s "/" with
                 | Some i => i
                 | None => String.length s
                 end) s). lia.
Qed.

(** The fuel of [matchPath] never runs out: any amount above the length of
    the path gives the same result. *)
Lemma matchPath_fuel_enough (fuel1 fuel2 : nat) (n : option (routingNode D))
    (path : string) :
  (String.length path < fuel1)%nat -> (String.length path < fuel2)%nat ->
  matchPath_fuel fuel1 n path = matchPath_fuel fuel2 n path.
Proof.
  revert fuel2 n path. induction fuel1 as [|fuel1 IH]; intros fuel2 n path H1 H2; [lia|].
  destruct fuel2 as [|fuel2]; [lia|].
  destruct n as [n|]; [|done]. rewrite !matchPath_fuel_step.
  destruct (decide (path = EmptyString)) as [|Hne]; [done|].
  pose proof (firstSegment_shorter path Hne) as Hlt.
  destruct (firstSegment path) as [seg rest]. cbn [snd] in Hlt.
  rewrite (IH fuel2 (findChild n seg) rest) by lia.
  by rewrite (IH fuel2 (emptyChild n) rest) by lia.
Qed.

(** The match of a path in the tree: nothing for the empty path, the leaf
    of [/health] for a path whose only segment is [health], the leaf of [/]
    for every other path. *)
Lemma matchPath_pathRoot path :
  matchPath (Some pathRoot) path =
    if decide (path = EmptyString) then None
    else if decide (firstSegment path = ("health", EmptyString)) then Some healthLeaf
    else Some rootLeaf.
Proof.
  unfold matchPath. rewrite matchPath_fuel_step.
  destruct (decide (path = EmptyString)) as [->|Hpath]; [done|].
  destruct (firstSegment path) as [seg rest] eqn:Hseg.
  cbn [emptyChild multiChild]. rewrite matchPath_fuel_nil.
  assert (findChild pathRoot seg = if decide (seg = "health") then Some healthLeaf else None)
    as ->.
  { unfold findChild. cbn [emptyChild children children_find].
    destruct (decide (seg = EmptyString)) as [->|?]; [done|].
    destruct (decide ("health" = seg)), (decide (seg = "health")); congruence. }
  destruct (decide (seg = "health")) as [->|Hh].
  2:{ rewrite matchPath_fuel_nil.
      rewrite (decide_False (P := (seg, rest) = ("health", EmptyString))) by congruence.
      by destruct (decide (seg ≠ "/")). }
  destruct path as [|c s]; [done|]. cbn [String.length].
  rewrite matchPath_fuel_step.
  destruct (decide (rest = EmptyString)) as [->|Hrest].
  { by rewrite decide_True. }
  rewrite (decide_False (P := ("health", rest) = ("health", EmptyString))) by congruence.
  destruct (firstSegment rest) as [seg2 rest2].
  assert (findChild healthLeaf seg2 = None) as ->.
  { unfold findChild. cbn [emptyChild children children_find]. by case_decide. }
  cbn [emptyChild multiChild]. rewrite !matchPath_fuel_nil.
  by destruct (decide (seg2 ≠ "/")), (decide ("health" ≠ "/")).
Qed.

Lemma tree_match_mux method path :
  tree_match (tree mux) method path = matchPath (Some pathRoot) path.
Proof.
  rewrite mux_tree. unfold tree_match, matchMethodAndPath.
  cbn [emptyChild]. unfold findChild. cbn [emptyChild children children_find].
  unfold matchPath at 1 2. rewrite !matchPath_fuel_nil.
  destruct (decide (method = EmptyString)).
  - fold (matchPath (Some pathRoot) path).
    destruct (matchPath (Some pathRoot) path); [done|].
    by destruct (decide (method = "HEAD")).
  - rewrite matchPath_fuel_nil. by destruct (decide (method = "HEAD")).
Qed.

Lemma matchPath_rooted s :
  matchPath (Some pathRoot) (String "/" s) =
    Some (if wrapper.names_health (String "/" s) then healthLeaf else rootLeaf).
Proof.
  rewrite matchPath_pathRoot, decide_False by done.
  destruct (wrapper.names_health (String "/" s)) eqn:Hh.
  - apply names_health_segment in Hh. by rewrite decide_True.
  - rewrite decide_False; [done|].
    intros Hs%names_health_segment. congruence.
Qed.

(** With these two patterns no rooted path is redirected to itself with a
    slash added. *)
Lemma no_slash_redirect method s :
  exactMatch (tree_match (tree mux) method (String "/" s +:+ "/")) (String "/" s +:+ "/")
    = false.
Proof.
  rewrite tree_match_mux, append_String, matchPath_rooted.
  assert (wrapper.names_health (String "/" (s +:+ "/")) = false) as ->.
  { unfold wrapper.names_health.
    rewrite (bool_decide_eq_false_2 (strings.IndexByte (s +:+ "/") "/" = None))
      by apply IndexByte_append.
    by rewrite andb_false_r. }
  unfold exactMatch. cbn [leaf lastSegment pat_segments List.last seg_multi negb].
  cbn [strings.CountByte List.length]. rewrite Ascii.eqb_refl, CountByte_append.
  by destruct (_ && _).
Qed.

Lemma matchOrRedirect_rooted method s u :
  matchOrRedirect mux method (String "/" s) u =
    (Some (if wrapper.names_health (String "/" s) then healthLeaf else rootLeaf), None).
Proof.
  unfold matchOrRedirect. rewrite no_slash_redirect, !andb_false_r.
  by rewrite tree_match_mux, matchPath_rooted.
Qed.

Lemma matchOrRedirect_empty method u :
  matchOrRedirect mux method EmptyString (Some u) = (None, Some (cleanPath u +:+ "/")).
Proof.
  unfold matchOrRedirect. rewrite !tree_match_mux, append_Empty.
  rewrite (matchPath_rooted EmptyString). reflexivity.
Qed.

Lemma matchOrRedirect_nil method path :
  matchOrRedirect mux method path None = (matchPath (Some pathRoot) path, None).
Proof.
  unfold matchOrRedirect. rewrite tree_match_mux.
  by rewrite (bool_decide_eq_false_2 (is_Some (@None string))), andb_false_r
    by (by intros [? ?]).
Qed.

Lemma matchOrRedirect_cases method path u :
  (exists url, matchOrRedirect mux method path u = (None, Some url)) \/
  matchOrRedirect mux method path u = (matchPath (Some pathRoot) path, None).
Proof.
  unfold matchOrRedirect. rewrite tree_match_mux.
  destruct (_ && _); eauto.
Qed.

(** The handler found for a request whose escaped path is in canonical
    form, whatever its method. *)
Lemma findHandler_canonical (r : Request) :
  cleanPath (URL_EscapedPath r) = URL_EscapedPath r ->
  findHandler mux r =
    if wrapper.names_health (URL_EscapedPath r) then healthHandler else rootHandler.
Proof.
  intros Hc. unfold findHandler. rewrite Hc.
  destruct (cleanPath_rooted _ Hc) as [s ->].
  rewrite !matchOrRedirect_rooted. cbn [fst].
  rewrite (decide_False (P := String "/" s ≠ String "/" s)) by (by intros ?).
  by destruct (decide (Method r = "CONNECT")), (wrapper.names_health (String "/" s)).
Qed.

(** The handler found for a request other than CONNECT whose escaped path
    is not in canonical form: the redirect to the cleaned path. *)
Lemma findHandler_noncanonical (r : Request) :
  Method r ≠ "CONNECT" ->
  cleanPath (URL_EscapedPath r) ≠ URL_EscapedPath r ->
  findHandler mux r =
    RedirectHandler (url.Path_String (cleanPath (URL_EscapedPath r))) StatusMovedPermanently.
Proof.
  intros Hm Hc. unfold findHandler. rewrite decide_False by done.
  destruct (cleanPath_is_rooted (URL_EscapedPath r)) as [s Hs].
  rewrite Hs in *. rewrite matchOrRedirect_rooted. by rewrite decide_True.
Qed.

(** The mux hands a request to one of the two registered handlers or
    answers it with a redirect of its own; it has no other answer. *)
Lemma findHandler_cases (r : Request) :
  findHandler mux r = rootHandler \/ findHandler mux r = healthHandler \/
  exists url, findHandler mux r = RedirectHandler url StatusMovedPermanently.
Proof.
  destruct (decide (cleanPath (URL_EscapedPath r) = URL_EscapedPath r)) as [Hc|Hc].
  { rewrite (findHandler_canonical r Hc). destruct (wrapper.names_health _); auto. }
  destruct (decide (Method r = "CONNECT")) as [Hm|Hm].
  2:{ rewrite (findHandler_noncanonical r Hm Hc). eauto. }
  unfold findHandler. rewrite decide_True by done.
  destruct (decide (URL_EscapedPath r = EmptyString)) as [He|He].
  { rewrite He, matchOrRedirect_empty. eauto. }
  destruct (matchOrRedirect_cases (Method r) (URL_EscapedPath r) (Some (URL_Path r)))
    as [[u ->]| ->]; [eauto|].
  rewrite matchOrRedirect_nil. cbn [fst].
  rewrite matchPath_pathRoot, decide_False by done.
  destruct (decide _); cbn; auto.
Qed.
End RoutingTree.

(** ** Claims on the routes of [main] *)

Section RouteClaims.
Import http config wrapper.
Context {D : Type}.
Variable NewStreamableHTTPHandler :
  (Request -> exec.OS -> option mcp.Server * exec.OS) -> Handler D.
Variable cfg : Config.

Local Abbreviation mux := (wrapper.mux NewStreamableHTTPHandler cfg).
Local Abbreviation serve := (wrapper.serve NewStreamableHTTPHandler cfg).
Local Abbreviation middleware :=
  (auth.NewAuthMiddleware (MCPAccessToken cfg) (NewStreamableHTTPHandler (getServer cfg))).

(** The request target [*] is answered by the server itself. *)
Lemma serve_star (r : Request) (d : D) :
  URL_EscapedPath r = "*" ->
  serve r d =
    finished ((if decide (Method r = "OPTIONS") then globalOptionsHandler
               else asteriskHandler) r newResponse d).
Proof.
  intros Hp. unfold wrapper.serve, Server_serve, serverHandler, mux_ServeHTTP.
  unfold RequestURI_is_star. rewrite Hp. rewrite bool_decide_eq_true_2 by done.
  destruct (decide (Method r = "OPTIONS")) as [Hm|Hm].
  - by rewrite bool_decide_eq_true_2.
  - by rewrite bool_decide_eq_false_2.
Qed.

Lemma serve_mux (r : Request) (d : D) :
  URL_EscapedPath r ≠ "*" ->
  serve r d = finished (findHandler mux r r newResponse d).
Proof.
  intros Hp. unfold wrapper.serve, Server_serve, serverHandler, mux_ServeHTTP.
  unfold RequestURI_is_star. by rewrite bool_decide_eq_false_2.
Qed.

Lemma canonical_not_star (p : string) : cleanPath p = p -> p ≠ "*".
Proof. intros Hc ->. by destruct (cleanPath_rooted _ Hc). Qed.

(** A request whose escaped path is in canonical form goes to the
    liveness handler when the path names it, to the middleware in front
    of the MCP handler otherwise. *)
Lemma serve_canonical (r : Request) (d : D) :
  cleanPath (URL_EscapedPath r) = URL_EscapedPath r ->
  serve r d =
    finished ((if names_health (URL_EscapedPath r)
               then HandlerFunc healthCheckHandler else middleware) r newResponse d).
Proof.
  intros Hc. rewrite serve_mux by by apply canonical_not_star.
  unfold wrapper.mux. cbv zeta.
  rewrite (findHandler_canonical _ _ r Hc).
  by destruct (names_health _).
Qed.

(** A request other than CONNECT whose escaped path is not in canonical
    form is answered by the redirect of the mux. *)
Lemma serve_noncanonical (r : Request) (d : D) :
  Method r ≠ "CONNECT" ->
  URL_EscapedPath r ≠ "*" ->
  cleanPath (URL_EscapedPath r) ≠ URL_EscapedPath r ->
  serve r d =
    finished (RedirectHandler (url.Path_String (cleanPath (URL_EscapedPath r)))
                StatusMovedPermanently r newResponse d).
Proof.
  intros Hm Hs Hc. rewrite serve_mux by done.
  unfold wrapper.mux. cbv zeta.
  by rewrite (findHandler_noncanonical _ _ r Hm Hc).
Qed.

(** Every request is answered by the middleware in front of the MCP
    handler, by the liveness handler, or by the server itself. *)
Lemma serve_cases (r : Request) (d : D) :
  exists h : Handler D,
    serve r d = finished (h r newResponse d) /\
    (h = middleware \/ h = HandlerFunc healthCheckHandler \/
     (exists url, h = RedirectHandler url StatusMovedPermanently) \/
     h = asteriskHandler \/ h = globalOptionsHandler).
Proof.
  destruct (decide (URL_EscapedPath r = "*")) as [Hs|Hs].
  { rewrite (serve_star r d Hs). destruct (decide (Method r = "OPTIONS")); eauto 10. }
  rewrite serve_mux by done. unfold wrapper.mux. cbv zeta.
  destruct (findHandler_cases (wrapper.authHandler NewStreamableHTTPHandler cfg)
              (HandlerFunc healthCheckHandler) r) as [->|[->|[u ->]]]; eauto 10.
Qed.

(** C3.  A request for [/health] is answered with status 200 and the fixed
    body, whatever its method and headers (credentials or none) and
    whatever the downstream state, which is left as it was: neither the
    middleware nor the MCP handler takes part. *)
Theorem health_fixed_response (r : Request) (d : D) :
  URL_EscapedPath r = "/health" ->
  wrapper.serve NewStreamableHTTPHandler cfg r d =
    ({| rw_header := {[ "Content-Type" := ["application/json"] ]};
        rw_status := Some StatusOK;
        rw_body := health_body |}, d).
Proof.
  intros Hp. rewrite serve_canonical by (by rewrite Hp).
  rewrite Hp. reflexivity.
Qed.


(** A request other than CONNECT whose escaped path is not in canonical
    form is answered by the redirect of the mux; no registered handler runs
    and the downstream state is left alone. *)
Lemma noncanonical_path_redirected (r : Request) (w : ResponseWriter) (d : D) :
  Method r ≠ "CONNECT" ->
  URL_EscapedPath r ≠ "*" ->
  cleanPath (URL_EscapedPath r) ≠ URL_EscapedPath r ->
  mux_ServeHTTP mux r w d =
    (Redirect w r (url.Path_String (cleanPath (URL_EscapedPath r)))
       StatusMovedPermanently, d).
Proof.
  intros Hm Hs Hp. unfold mux_ServeHTTP, RequestURI_is_star.
  rewrite bool_decide_eq_false_2 by done.
  unfold wrapper.mux. cbv zeta.
  by rewrite (findHandler_noncanonical _ _ r Hm Hp).
Qed.
End RouteClaims.



Lemma health_fixed_response_witness :
  wrapper.serve (fun _ => echo_handler) example_config (get_path "/health") tt =
    ({| http.rw_header := {[ "Content-Type" := ["application/json"] ]};
        http.rw_status := Some http.StatusOK;
        http.rw_body := wrapper.health_body |}, tt).
Proof.
  apply (health_fixed_response (fun _ => echo_handler) example_config
           (get_path "/health") tt).
  reflexivity.
Defined.

Example serve_no_credentials :
  wrapper.serve (fun _ => echo_handler) example_config no_credentials tt =
    (http.Error http.newResponse auth.missing_header_body http.StatusUnauthorized, tt).
Proof. vm_compute. reflexivity. Qed.

Example serve_health_with_trailing_slash :
  wrapper.serve (fun _ => echo_handler) example_config (get_path "/health/") tt =
    (http.Error http.newResponse auth.missing_header_body http.StatusUnauthorized, tt).
Proof. vm_compute. reflexivity. Qed.

Example serve_get_noncanonical :
  wrapper.serve (fun _ => echo_handler) example_config (get_path "/a/../health") tt =
    ({| http.rw_header :=
          {[ "Location" := ["/health"];
             "Content-Type" := ["text/html; charset=utf-8"] ]};
        http.rw_status := Some http.StatusMovedPermanently;
        http.rw_body :=
          "<a href=" +:+ quoted "/health" +:+ ">Moved Permanently</a>."
            +:+ newline +:+ newline |}, tt).
Proof. vm_compute. reflexivity. Qed.

Example serve_authorized :
  wrapper.serve (fun _ => echo_handler) example_config
      (with_authorization "Bearer s3cret") tt =
    (http.Write "ok" http.newResponse, tt).
Proof. vm_compute. reflexivity. Qed.

(** An encoded slash is not a separator for the mux: the path is in
    canonical form and goes to the middleware. *)
Example serve_encoded_slash :
  http.cleanPath "/a%2F/b" = "/a%2F/b" /\
  wrapper.serve (fun _ => echo_handler) example_config (get_path "/a%2F/b") tt =
    (http.Error http.newResponse auth.missing_header_body http.StatusUnauthorized, tt).
Proof. split; vm_compute; reflexivity. Qed.

(** The request target [*]: status 400 from the mux, and the server's own
    answer to OPTIONS. *)
Example serve_asterisk :
  http.rw_status (fst (wrapper.serve (fun _ => echo_handler) example_config
                         (get_path "*") tt)) = Some http.StatusBadRequest /\
  http.rw_status (fst (wrapper.serve (fun _ => echo_handler) example_config
                         (bearer_request "OPTIONS" "*" "none") tt)) = Some http.StatusOK.
Proof. split; vm_compute; reflexivity. Qed.

(** A CONNECT request is not redirected for its path, and one without a
    path is redirected to the root. *)
Example serve_connect :
  wrapper.serve (fun _ => echo_handler) example_config
      (bearer_request "CONNECT" "//mcp" "s3cret") tt =
    (http.Write "ok" http.newResponse, tt) /\
  wrapper.serve (fun _ => echo_handler) example_config
      (bearer_request "CONNECT" EmptyString "s3cret") tt =
    ({| http.rw_header := {[ "Location" := ["/"] ]};
        http.rw_status := Some http.StatusMovedPermanently;
        http.rw_body := EmptyString |}, tt).
Proof. split; vm_compute; reflexivity. Qed.

Example LoadConfig_defaults :
  config.LoadConfig
      {[ "PORTAINER_API_TOKEN" := "ptr_token"; "MCP_ACCESS_TOKEN" := "s3cret";
         "MCP_PORT" := "80a"; "READ_ONLY_MODE" := "TRUE";
         "DISABLE_VERSION_CHECK" := "yes" ]} =
    inl {| config.PortainerURL := "http://portainer:9000";
           config.PortainerAPIToken := "ptr_token";
           config.MCPAccessToken := "s3cret";
           config.MCPPort := 8080;
           config.MCPToolsFile := EmptyString;
           config.DisableVersionCheck := false;
           config.ReadOnlyMode := true;
           config.MCPBinaryPath := "/app/portainer-mcp" |}.
Proof. vm_compute. reflexivity. Qed.

Example LoadConfig_missing_token :
  config.LoadConfig {[ "PORTAINER_API_TOKEN" := "ptr_token"; "MCP_PORT" := "9090" ]} =
    inr "MCP_ACCESS_TOKEN is required".
Proof. vm_compute. reflexivity. Qed.

Example portainer_args_example :
  bridge.portainer_args missing_binary_config =
    ["--server"; "http://portainer:9000"; "--api-token"; "ptr_token";
     "--tools-file"; "/config/tools.yaml"; "--disable-version-check"].
Proof. reflexivity. Qed.

(** A bare name is looked up: the path found is the program to run, the
    argument vector still starts with the name. *)
Example Command_bare_name :
  exec.Command shell_os "sh" ["-c"; "true"] =
    {| exec.Path := "/bin/sh"; exec.Args := ["sh"; "-c"; "true"]; exec.Err := None |} /\
  exec.Command empty_os "sh" [] =
    {| exec.Path := "sh"; exec.Args := ["sh"];
       exec.Err := Some "executable file not found in $PATH" |} /\
  exec.Command empty_os "/app/portainer-mcp" [] =
    {| exec.Path := "/app/portainer-mcp"; exec.Args := ["/app/portainer-mcp"];
       exec.Err := None |}.
Proof. repeat split. Qed.

(** ** Claims on the subprocess command *)

Section BridgeClaims.
Import config exec bridge.

(** [exec.Command] puts the name it was given, not the path it found,
    in front of the arguments. *)
Lemma Command_Args (os : OS) (name : string) (arg : list string) :
  Args (Command os name arg) = name :: arg.
Proof.
  unfold Command. destruct (decide (filepath_Base name = name)); [|done].
  by destruct (LookPath os name).
Qed.

(** C4.  The arguments the bridge passes to the executable are the server
    and token flags with their values, then the tools file flag and path
    when the path is not empty, then the two switches when set, in this
    order.  The argument vector of the command [CreateMCPServer] builds, of
    the one [GetPortainerCommand] builds and of the one the server factory
    builds for a request is the name of the executable followed by these
    arguments, whatever the request and whatever the lookup of the
    executable gives: it is a function of the configuration alone, and
    every argument is a fixed flag or a field of the configuration. *)
Theorem argument_vector_from_config (cfg : Config) :
  portainer_args cfg =
    (["--server"; PortainerURL cfg; "--api-token"; PortainerAPIToken cfg]
     ++ (if decide (MCPToolsFile cfg = EmptyString) then []
         else ["--tools-file"; MCPToolsFile cfg])
     ++ (if DisableVersionCheck cfg then ["--disable-version-check"] else [])
     ++ (if ReadOnlyMode cfg then ["--read-only"] else []))%list
  /\ (forall os : OS,
        Args (CreateMCPServer_cmd cfg os) = MCPBinaryPath cfg :: portainer_args cfg)
  /\ (forall os : OS,
        Args (GetPortainerCommand cfg os) = MCPBinaryPath cfg :: portainer_args cfg)
  /\ (forall (req : http.Request) (os : OS),
        Args (wrapper.getServer_cmd cfg req os) = MCPBinaryPath cfg :: portainer_args cfg)
  /\ (forall (req1 req2 : http.Request) (os1 os2 : OS),
        Args (wrapper.getServer_cmd cfg req1 os1) = Args (wrapper.getServer_cmd cfg req2 os2))
  /\ Forall (fun a => a ∈ ["--server"; "--api-token"; "--tools-file";
                           "--disable-version-check"; "--read-only";
                           PortainerURL cfg; PortainerAPIToken cfg;
                           MCPToolsFile cfg])
       (portainer_args cfg).
Proof.
  assert (portainer_args cfg =
    (["--server"; PortainerURL cfg; "--api-token"; PortainerAPIToken cfg]
     ++ (if decide (MCPToolsFile cfg = EmptyString) then []
         else ["--tools-file"; MCPToolsFile cfg])
     ++ (if DisableVersionCheck cfg then ["--disable-version-check"] else [])
     ++ (if ReadOnlyMode cfg then ["--read-only"] else []))%list) as Hargs.
  { unfold portainer_args.
    destruct (decide (MCPToolsFile cfg ≠ EmptyString)) as [Hf|Hf];
      destruct (decide (MCPToolsFile cfg = EmptyString)) as [He|He];
      try done;
      destruct (DisableVersionCheck cfg), (ReadOnlyMode cfg); reflexivity. }
  split; [exact Hargs|].
  split; [intros os; apply Command_Args|].
  split; [intros os; apply Command_Args|].
  split; [intros req os; apply Command_Args|].
  split.
  { intros req1 req2 os1 os2. unfold wrapper.getServer_cmd, CreateMCPServer_cmd,
      CommandContext. by rewrite !Command_Args. }
  rewrite Hargs.
  destruct (decide (MCPToolsFile cfg = EmptyString)),
    (DisableVersionCheck cfg), (ReadOnlyMode cfg); simpl;
    repeat (apply Forall_cons; split; [set_solver|]); apply Forall_nil_2.
Qed.

(** C5, evaluated on the code.  [CreateMCPServer] returns the server
    [mcp.NewServer] made, connected to nothing, with a nil error, and
    starts no process: the operating system is as it was. *)
Theorem CreateMCPServer_launches_nothing (cfg : Config) (os : OS) :
  exists server,
    CreateMCPServer cfg os = ((Some server, None), os)
    /\ mcp.transports server = []
    /\ mcp.tools server = []
    /\ processes (snd (CreateMCPServer cfg os)) = processes os.
Proof. eexists. repeat split. Qed.

(** C6, evaluated on the code.  With an executable that cannot be started
    (starting the command fails), [CreateMCPServer] still returns a
    server and a nil error. *)
Theorem CreateMCPServer_ignores_missing_binary :
  fst (Start (CreateMCPServer_cmd missing_binary_config empty_os) empty_os) =
    Some "exec: no such file or directory"
  /\ (exists server,
        fst (CreateMCPServer missing_binary_config empty_os) = (Some server, None))
  /\ (forall cfg os, snd (fst (CreateMCPServer cfg os)) = None).
Proof. repeat split. eexists. reflexivity. Qed.
End BridgeClaims.

(** ** Claims on the configuration *)

Section ConfigClaims.
Import config.

Lemma Getenv_empty (env : Env) (key : string) :
  os_Getenv env key = EmptyString <->
  env !! key = None \/ env !! key = Some EmptyString.
Proof.
  unfold os_Getenv. destruct (env !! key) as [v|]; simpl.
  - split; [intros ->; by right|]. by intros [?|[= ->]].
  - split; [by left|done].
Qed.

(** C9.  [LoadConfig] fails exactly when PORTAINER_API_TOKEN or
    MCP_ACCESS_TOKEN is unset or empty.  Otherwise it succeeds, and each
    other field is the value of its variable, or its fixed default when
    the variable is unset, empty or does not parse. *)
Theorem LoadConfig_fails_only_without_tokens (env : Env) :
  ((exists msg, LoadConfig env = inr msg) <->
     (env !! "PORTAINER_API_TOKEN" = None \/
      env !! "PORTAINER_API_TOKEN" = Some EmptyString) \/
     (env !! "MCP_ACCESS_TOKEN" = None \/
      env !! "MCP_ACCESS_TOKEN" = Some EmptyString))
  /\ ((exists msg, LoadConfig env = inr msg) \/
      (exists cfg, LoadConfig env = inl cfg
         /\ PortainerAPIToken cfg = os_Getenv env "PORTAINER_API_TOKEN"
         /\ MCPAccessToken cfg = os_Getenv env "MCP_ACCESS_TOKEN"
         /\ MCPToolsFile cfg = os_Getenv env "MCP_TOOLS_FILE"
         /\ MCPPort cfg =
              default 8080 (env !! "MCP_PORT" ≫= strconv.Atoi)
         /\ DisableVersionCheck cfg =
              default false (env !! "DISABLE_VERSION_CHECK" ≫= strconv.ParseBool)
         /\ ReadOnlyMode cfg =
              default false (env !! "READ_ONLY_MODE" ≫= strconv.ParseBool)
         /\ PortainerURL cfg =
              (if decide (os_Getenv env "PORTAINER_URL" = EmptyString)
               then "http://portainer:9000" else os_Getenv env "PORTAINER_URL")
         /\ MCPBinaryPath cfg =
              (if decide (os_Getenv env "MCP_BINARY_PATH" = EmptyString)
               then "/app/portainer-mcp" else os_Getenv env "MCP_BINARY_PATH"))).
Proof.
  rewrite <- !Getenv_empty. unfold LoadConfig. cbn [PortainerAPIToken MCPAccessToken].
  destruct (decide (os_Getenv env "PORTAINER_API_TOKEN" = EmptyString)) as [H1|H1].
  { split; [|left; eauto]. split; eauto. }
  destruct (decide (os_Getenv env "MCP_ACCESS_TOKEN" = EmptyString)) as [H2|H2].
  { split; [|left; eauto]. split; eauto. }
  split.
  { split; [by intros [msg ?]|]. intros [?|?]; done. }
  right. eexists. split; [reflexivity|]. cbn.
  repeat split.
  - unfold getEnvAsIntOrDefault, os_Getenv.
    destruct (env !! "MCP_PORT") as [v|]; simpl; [|done].
    destruct (decide (v ≠ EmptyString)) as [Hv|Hv]; [done|].
    apply dec_stable in Hv. by subst.
  - unfold getEnvAsBoolOrDefault, os_Getenv.
    destruct (env !! "DISABLE_VERSION_CHECK") as [v|]; simpl; [|done].
    destruct (decide (v ≠ EmptyString)) as [Hv|Hv]; [done|].
    apply dec_stable in Hv. by subst.
  - unfold getEnvAsBoolOrDefault, os_Getenv.
    destruct (env !! "READ_ONLY_MODE") as [v|]; simpl; [|done].
    destruct (decide (v ≠ EmptyString)) as [Hv|Hv]; [done|].
    apply dec_stable in Hv. by subst.
  - unfold getEnvOrDefault. repeat case_decide; done.
  - unfold getEnvOrDefault. repeat case_decide; done.
Qed.
End ConfigClaims.

(** ** The codec: reading back what was written *)

Section CodecLemmas.
Import codec.

Lemma append_assoc (a b c : string) : (a +:+ b) +:+ c = a +:+ (b +:+ c).
Proof. induction a as [|x a IH]; [done|]. by rewrite !append_String, IH. Qed.

Lemma append_nil_r (a : string) : a +:+ EmptyString = a.
Proof. induction a as [|x a IH]; [done|]. by rewrite append_String, IH. Qed.

Lemma length_append (a b : string) :
  String.length (a +:+ b) = (String.length a + String.length b)%nat.
Proof.
  induction a as [|x a IH]; [done|]. rewrite append_String. simpl. by rewrite IH.
Qed.

Lemma parse_chars_escape_char (c : ascii) (s : string) :
  parse_chars (escape_char c +:+ s) = prepend (String c EmptyString) (parse_chars s).
Proof.
  destruct c as [[] [] [] [] [] [] [] []]; reflexivity.
Qed.

Lemma parse_chars_escape (s rest : string) :
  parse_chars (escape s +:+ String quote_char rest) = inl (s, rest).
Proof.
  induction s as [|c s IH]; [reflexivity|].
  cbn [escape]. by rewrite append_assoc, parse_chars_escape_char, IH.
Qed.
Lemma scan_digits_nil (rest : string) :
  no_digit rest -> scan_digits rest = (Decimal.Nil, rest).
Proof. destruct rest as [|c rest]; [done|]. simpl. by intros ->. Qed.

Lemma scan_digits_render (d : Decimal.uint) (rest : string) :
  no_digit rest -> scan_digits (render_uint d +:+ rest) = (d, rest).
Proof.
  intros Hrest. induction d as [|d IH|d IH|d IH|d IH|d IH|d IH|d IH|d IH|d IH|d IH];
    [by apply scan_digits_nil|..];
    cbn [render_uint]; rewrite append_String; cbn [scan_digits];
    change (digit_of _) with (Some Decimal.D0) ||
    change (digit_of _) with (Some Decimal.D1) ||
    change (digit_of _) with (Some Decimal.D2) ||
    change (digit_of _) with (Some Decimal.D3) ||
    change (digit_of _) with (Some Decimal.D4) ||
    change (digit_of _) with (Some Decimal.D5) ||
    change (digit_of _) with (Some Decimal.D6) ||
    change (digit_of _) with (Some Decimal.D7) ||
    change (digit_of _) with (Some Decimal.D8) ||
    change (digit_of _) with (Some Decimal.D9);
    by rewrite IH.
Qed.

Lemma follows_no_digit (rest : string) : follows rest -> no_digit rest.
Proof. destruct rest; [done|]. by intros [? _]. Qed.

Lemma unorm_to_uint (p : positive) : Decimal.unorm (Pos.to_uint p) = Pos.to_uint p.
Proof.
  rewrite <- (DecimalPos.Unsigned.to_of (Pos.to_uint p)).
  by rewrite DecimalPos.Unsigned.of_to.
Qed.

Lemma canonical_to_uint (p : positive) : canonical (Pos.to_uint p) = true.
Proof.
  unfold canonical. rewrite unorm_to_uint.
  pose proof (DecimalPos.Unsigned.to_uint_nonnil p) as Hn.
  destruct (Pos.to_uint p) eqn:E; [done|..]; by apply Decimal.internal_uint_dec_lb.
Qed.

Lemma render_uint_start (d : Decimal.uint) (rest : string) :
  d ≠ Decimal.Nil -> numeral_start (render_uint d +:+ rest).
Proof. destruct d; [done|..]; intros _; right; by eexists. Qed.

Lemma render_int_start (z : Z) (rest : string) :
  numeral_start (render_int z +:+ rest).
Proof.
  unfold render_int. destruct z as [|p|p]; simpl Z.to_int; cbv beta iota.
  - right. by eexists.
  - apply render_uint_start, DecimalPos.Unsigned.to_uint_nonnil.
  - left. reflexivity.
Qed.

(** The numeral of an integer is read back as a sign and canonical digits. *)
Lemma scan_int_render (z : Z) (tail : string) :
  no_digit tail ->
  exists neg d s1,
    scan_minus (render_int z +:+ tail) = (neg, s1)
    /\ scan_sign (render_int z +:+ tail) = (neg, s1)
    /\ scan_digits s1 = (d, tail)
    /\ d ≠ Decimal.Nil
    /\ canonical d = true
    /\ (if neg : bool then - Z.of_uint d else Z.of_uint d) = z.
Proof.
  intros Htail. unfold render_int. destruct z as [|p|p]; simpl Z.to_int; cbv beta iota.
  - exists false, (Decimal.D0 Decimal.Nil), (String "0" tail).
    repeat split; try done.
    change (String "0" tail) with (render_uint (Decimal.D0 Decimal.Nil) +:+ tail).
    by apply scan_digits_render.
  - pose proof (DecimalPos.Unsigned.to_uint_nonnil p) as Hnil.
    exists false, (Pos.to_uint p), (render_uint (Pos.to_uint p) +:+ tail).
    assert (forall s, numeral_start s ->
              (exists c s', s = String c s' /\ is_Some (digit_of c)) ->
              scan_minus s = (false, s) /\ scan_sign s = (false, s)) as Hsign.
    { intros s _ (c & s' & -> & [f Hf]).
      destruct c as [[] [] [] [] [] [] [] []]; try discriminate Hf; by split. }
    destruct (Hsign (render_uint (Pos.to_uint p) +:+ tail)) as [-> ->].
    + by apply render_uint_start.
    + destruct (Pos.to_uint p); [done|..]; do 2 eexists; (split; [reflexivity|]);
        by eexists.
    + repeat split; try done.
      * by apply scan_digits_render.
      * apply canonical_to_uint.
      * change (Z.of_uint (Pos.to_uint p)) with (Z.of_int (Z.to_int (Z.pos p))).
        apply DecimalZ.of_to.
  - exists true, (Pos.to_uint p), (render_uint (Pos.to_uint p) +:+ tail).
    repeat split; try done.
    + by apply scan_digits_render.
    + apply DecimalPos.Unsigned.to_uint_nonnil.
    + apply canonical_to_uint.
    + change (- Z.of_uint (Pos.to_uint p)) with (Z.of_int (Z.to_int (Z.neg p))).
      apply DecimalZ.of_to.
Qed.

Lemma scan_fraction_none (tail : string) :
  match tail with
  | EmptyString => True
  | String c _ => Ascii.eqb c "." = false
  end ->
  scan_fraction tail = Some (Decimal.Nil, tail).
Proof. destruct tail as [|c tail]; [done|]. simpl. by intros ->. Qed.

Lemma scan_exponent_none (tail : string) :
  follows tail -> scan_exponent tail = Some (0, tail).
Proof.
  destruct tail as [|c tail]; [done|]. simpl. by intros (_ & _ & -> & ->).
Qed.

Lemma scan_exponent_render (e : Z) (rest : string) :
  follows rest ->
  scan_exponent (String "e" (render_int e +:+ rest)) = Some (e, rest).
Proof.
  intros Hrest. unfold scan_exponent.
  change (Ascii.eqb "e" "e" || Ascii.eqb "e" "E") with true. cbv iota.
  destruct (scan_int_render e rest (follows_no_digit _ Hrest))
    as (neg & d & s1 & _ & -> & -> & Hnil & _ & <-).
  by destruct d.
Qed.

Lemma parse_number_render (m e : Z) (rest : string) :
  follows rest ->
  parse_number (render_number (JDec m e) +:+ rest) = inl (JNum (JDec m e), rest).
Proof.
  intros Hrest. cbn [render_number]. rewrite append_assoc.
  set (tail := (if e =? 0 then EmptyString else String "e" (render_int e)) +:+ rest).
  assert (no_digit tail) as Hdigit.
  { subst tail. destruct (e =? 0); [by apply follows_no_digit|done]. }
  assert (scan_fraction tail = Some (Decimal.Nil, tail)) as Hfrac.
  { apply scan_fraction_none. subst tail.
    destruct (e =? 0); [|done]. rewrite append_Empty.
    destruct rest; [done|]. by destruct Hrest as (_ & ? & _). }
  assert (scan_exponent tail = Some (e, rest)) as Hexp.
  { subst tail. destruct (Z.eqb_spec e 0) as [->|Hne].
    - by apply scan_exponent_none.
    - rewrite append_String. by apply scan_exponent_render. }
  destruct (scan_int_render m tail Hdigit)
    as (neg & d & s1 & Hminus & _ & Hscan & _ & Hcanon & Hval).
  unfold parse_number. rewrite Hminus, Hscan, Hcanon, Hfrac, Hexp.
  rewrite DecimalFacts.app_nil_r. simpl Decimal.nb_digits.
  rewrite Hval. change (Z.of_nat 0) with 0. by rewrite Z.sub_0_r.
Qed.

Lemma parse_value_numeral (fuel : nat) (s : string) :
  numeral_start s -> parse_value (S fuel) s = parse_number s.
Proof.
  destruct s as [|c s]; [done|].
  destruct c as [[] [] [] [] [] [] [] []]; intros [Hm|[f Hf]];
    try discriminate Hm; try discriminate Hf; reflexivity.
Qed.
Lemma skip_ws_token (s : string) : token_start s -> skip_ws s = s.
Proof. destruct s as [|c s]; [done|]. simpl. by intros [-> _]. Qed.

Lemma numeral_token_start (s : string) : numeral_start s -> token_start s.
Proof.
  destruct s as [|c s]; [done|].
  destruct c as [[] [] [] [] [] [] [] []]; intros [Hm|[f Hf]];
    try discriminate Hm; try discriminate Hf; split; reflexivity.
Qed.

Lemma render_token_start (m : json) (rest : string) : token_start (render m +:+ rest).
Proof.
  destruct m as [|[]|[z e| |[]]|s|items|members]; try (split; reflexivity).
  cbn [render render_number]. rewrite append_assoc.
  apply numeral_token_start, render_int_start.
Qed.

Lemma follows_comma (rest : string) : follows (String "," rest).
Proof. by repeat split. Qed.

Lemma follows_bracket (rest : string) : follows (String "]" rest).
Proof. by repeat split. Qed.

Lemma follows_brace (rest : string) : follows (String "}" rest).
Proof. by repeat split. Qed.

(** The equations of the parser on the first character of a token. *)
Lemma parse_value_string (fuel : nat) (rest : string) :
  parse_value (S fuel) (String quote_char rest) =
    bind_parsed (parse_chars rest) (fun str rest' => inl (JStr str, rest')).
Proof. reflexivity. Qed.

Lemma parse_value_array (fuel : nat) (rest : string) :
  parse_value (S fuel) (String "[" rest) =
    match skip_ws rest with
    | String c' rest' as items =>
        if Ascii.eqb c' "]" then inl (JArr [], rest')
        else bind_parsed (parse_items fuel items) (fun vs rest'' => inl (JArr vs, rest''))
    | EmptyString => inr EmptyString
    end.
Proof. reflexivity. Qed.

Lemma parse_value_object (fuel : nat) (rest : string) :
  parse_value (S fuel) (String "{" rest) =
    match skip_ws rest with
    | String c' rest' as members =>
        if Ascii.eqb c' "}" then inl (JObj [], rest')
        else bind_parsed (parse_members fuel members) (fun ms rest'' => inl (JObj ms, rest''))
    | EmptyString => inr EmptyString
    end.
Proof. reflexivity. Qed.

Lemma parse_items_step (fuel : nat) (s : string) :
  parse_items (S fuel) s =
    bind_parsed (parse_value fuel s) (fun v rest =>
      match skip_ws rest with
      | String c rest' as here =>
          if Ascii.eqb c "," then
            bind_parsed (parse_items fuel rest') (fun vs rest'' => inl (v :: vs, rest''))
          else if Ascii.eqb c "]" then inl ([v], rest')
          else inr here
      | EmptyString => inr EmptyString
      end).
Proof. reflexivity. Qed.

Lemma parse_members_step (fuel : nat) (key_on : string) :
  parse_members (S fuel) (String quote_char key_on) =
    bind_parsed (parse_chars key_on) (fun key rest =>
      match skip_ws rest with
      | String c rest' as colon =>
          if Ascii.eqb c ":" then
            bind_parsed (parse_value fuel rest') (fun v rest'' =>
              match skip_ws rest'' with
              | String c' rest3 as here' =>
                  if Ascii.eqb c' "," then
                    bind_parsed (parse_members fuel rest3)
                      (fun ms rest4 => inl ((key, v) :: ms, rest4))
                  else if Ascii.eqb c' "}" then inl ([(key, v)], rest3)
                  else inr here'
              | EmptyString => inr EmptyString
              end)
          else inr colon
      | EmptyString => inr EmptyString
      end).
Proof. reflexivity. Qed.

Lemma parse_items_render (items : list json) :
  items ≠ [] -> Forall reads_back items ->
  forall fuel rest,
    (list_sum (map (fun v => S (json_size v)) items) <= fuel)%nat ->
    parse_items fuel (join "," (map render items) +:+ String "]" rest) = inl (items, rest).
Proof.
  intros Hne Hall. induction Hall as [|v l Hv Hl IH]; [done|].
  intros fuel rest Hfuel. simpl in Hfuel.
  destruct fuel as [|fuel]; [lia|]. rewrite parse_items_step.
  destruct l as [|v' l'].
  - cbn [map join]. rewrite (Hv fuel (String "]" rest)) by (done || simpl in *; lia).
    reflexivity.
  - change (join "," (map render (v :: v' :: l')))
      with (render v +:+ "," +:+ join "," (map render (v' :: l'))).
    rewrite !append_assoc, append_String, append_Empty.
    rewrite (Hv fuel) by (done || lia). cbn [bind_parsed skip_ws is_ws].
    change (is_ws ",") with false. cbv iota.
    change (Ascii.eqb "," ",") with true. cbv iota.
    rewrite IH by (done || lia). reflexivity.
Qed.

Lemma parse_members_render (members : list (string * json)) :
  members ≠ [] -> Forall (fun kv => reads_back (snd kv)) members ->
  forall fuel rest,
    (list_sum (map (fun kv => S (json_size (snd kv))) members) <= fuel)%nat ->
    parse_members fuel (join "," (map member_text members) +:+ String "}" rest) =
      inl (members, rest).
Proof.
  intros Hne Hall. induction Hall as [|[k v] l Hv Hl IH]; [done|].
  intros fuel rest Hfuel. simpl in Hfuel.
  destruct fuel as [|fuel]; [lia|].
  assert (forall tail,
    parse_members (S fuel) (member_text (k, v) +:+ tail) =
      bind_parsed (parse_value fuel (render v +:+ tail)) (fun v rest'' =>
        match skip_ws rest'' with
        | String c' rest3 as here' =>
            if Ascii.eqb c' "," then
              bind_parsed (parse_members fuel rest3)
                (fun ms rest4 => inl ((k, v) :: ms, rest4))
            else if Ascii.eqb c' "}" then inl ([(k, v)], rest3)
            else inr here'
        | EmptyString => inr EmptyString
        end)) as Hstep.
  { intros tail. unfold member_text, render_string. cbn [fst snd].
    rewrite !append_String, !append_assoc, !append_String, append_Empty.
    rewrite parse_members_step, parse_chars_escape. reflexivity. }
  simpl in Hv.
  destruct l as [|kv' l'].
  - cbn [map join]. rewrite Hstep.
    rewrite (Hv fuel (String "}" rest)) by (done || simpl in *; lia).
    reflexivity.
  - change (join "," (map member_text ((k, v) :: kv' :: l')))
      with (member_text (k, v) +:+ "," +:+ join "," (map member_text (kv' :: l'))).
    rewrite !append_assoc, append_String, append_Empty, Hstep.
    rewrite (Hv fuel) by (done || lia). cbn [bind_parsed skip_ws].
    change (is_ws ",") with false. cbv iota.
    change (Ascii.eqb "," ",") with true. cbv iota.
    rewrite IH by (done || lia). reflexivity.
Qed.
Lemma Forall_reads_back {A : Type} (f : A -> json) (l : list A) :
  Forall (fun x => encodable (f x) = true -> reads_back (f x)) l ->
  forallb (fun x => encodable (f x)) l = true ->
  Forall (fun x => reads_back (f x)) l.
Proof.
  induction 1 as [|x l Hx Hl IH]; simpl; [constructor|].
  intros [Hex Hel]%andb_true_iff. constructor; auto.
Qed.

Ltac flatten_append :=
  repeat (rewrite append_String || rewrite append_Empty || rewrite append_assoc).

Lemma render_reads_back (m : json) : encodable m = true -> reads_back m.
Proof.
  induction m as [|b|n|s|items IH|members IH] using json_ind';
    intros Henc fuel rest Hfuel Hrest;
    (destruct fuel as [|fuel]; [simpl in Hfuel; lia|]).
  - reflexivity.
  - by destruct b.
  - destruct n as [z e| |]; try discriminate Henc. cbn [render].
    rewrite parse_value_numeral
      by (cbn [render_number]; rewrite append_assoc; apply render_int_start).
    by apply parse_number_render.
  - cbn [render]. unfold render_string. flatten_append.
    rewrite parse_value_string, parse_chars_escape. reflexivity.
  - cbn [render]. flatten_append. rewrite parse_value_array.
    destruct items as [|v l]; [reflexivity|].
    remember (join "," (map render (v :: l)) +:+ String "]" rest) as X eqn:HX.
    assert (token_start X) as Hstart.
    { subst X. destruct l; cbn [map join]; rewrite ?append_assoc;
        apply render_token_start. }
    rewrite (skip_ws_token X Hstart).
    destruct X as [|c X'] eqn:E; [done|]. destruct Hstart as [_ ->].
    rewrite HX, parse_items_render; [reflexivity|done| |simpl in Hfuel |- *; lia].
    by apply (Forall_reads_back (fun v => v)).
  - cbn [render].
    change (map _ members) with (map member_text members).
    flatten_append. rewrite parse_value_object.
    destruct members as [|kv l]; [reflexivity|].
    remember (join "," (map member_text (kv :: l)) +:+ String "}" rest) as X eqn:HX.
    assert (exists Y, X = String quote_char Y) as [Y HY].
    { subst X. destruct l; cbn [map join]; unfold member_text at 1, render_string;
        flatten_append; eauto. }
    rewrite HY at 1. cbn [skip_ws]. change (is_ws quote_char) with false. cbv iota.
    change (Ascii.eqb quote_char "}") with false. cbv iota.
    rewrite <- HY, HX, parse_members_render; [reflexivity|done| |simpl in Hfuel |- *; lia].
    by apply (Forall_reads_back snd).
Qed.

(** The size of a message is at most the length of its text. *)
Lemma length_join_bound {A : Type} (size : A -> nat) (text : A -> string) (l : list A) :
  Forall (fun x => (size x <= String.length (text x))%nat) l ->
  (list_sum (map (fun x => S (size x)) l) <= S (String.length (join "," (map text l))))%nat.
Proof.
  induction 1 as [|x l Hx Hl IH]; [simpl; lia|].
  destruct l as [|y l'].
  - simpl. lia.
  - change (join "," (map text (x :: y :: l')))
      with (text x +:+ "," +:+ join "," (map text (y :: l'))).
    rewrite !length_append. simpl in *. lia.
Qed.

Lemma json_size_length (m : json) : (json_size m <= String.length (render m))%nat.
Proof.
  induction m as [|b|n|s|items IH|members IH] using json_ind'.
  - simpl. lia.
  - destruct b; simpl; lia.
  - destruct n as [z e| |[]]; try (simpl; lia).
    pose proof (render_int_start z EmptyString) as H. rewrite append_nil_r in H.
    cbn [render render_number json_size]. rewrite length_append.
    destruct (render_int z); [done|simpl; lia].
  - cbn [render json_size]. unfold render_string. simpl. lia.
  - cbn [render json_size]. rewrite !length_append.
    pose proof (length_join_bound json_size render items IH). simpl. lia.
  - cbn [render json_size].
    change (map _ members) with (map member_text members) at 2.
    rewrite !length_append.
    pose proof (length_join_bound (fun kv => json_size (snd kv)) member_text members) as H.
    simpl. cut (list_sum (map (fun kv => S (json_size (snd kv))) members)
                 <= S (String.length (join "," (map member_text members))))%nat; [lia|].
    apply H. eapply Forall_impl; [exact IH|].
    intros [k v] Hkv. unfold member_text. rewrite !length_append. simpl in *. lia.
Qed.
Lemma no_newline_append (a b : string) :
  no_newline (a +:+ b) = no_newline a && no_newline b.
Proof.
  induction a as [|c a IH]; [done|].
  rewrite append_String. simpl. by rewrite IH, andb_assoc.
Qed.

Lemma no_newline_escape_char (c : ascii) : no_newline (escape_char c) = true.
Proof. destruct c as [[] [] [] [] [] [] [] []]; reflexivity. Qed.

Lemma no_newline_escape (s : string) : no_newline (escape s) = true.
Proof.
  induction s as [|c s IH]; [done|].
  cbn [escape]. by rewrite no_newline_append, no_newline_escape_char, IH.
Qed.

Lemma no_newline_render_string (s : string) : no_newline (render_string s) = true.
Proof.
  unfold render_string. cbn [no_newline].
  by rewrite no_newline_append, no_newline_escape.
Qed.

Lemma no_newline_render_uint (d : Decimal.uint) : no_newline (render_uint d) = true.
Proof. induction d; simpl; done. Qed.

Lemma no_newline_join {A : Type} (text : A -> string) (l : list A) :
  Forall (fun x => no_newline (text x) = true) l ->
  no_newline (join "," (map text l)) = true.
Proof.
  induction 1 as [|x l Hx Hl IH]; [done|].
  destruct l as [|y l']; [done|].
  change (join "," (map text (x :: y :: l')))
    with (text x +:+ "," +:+ join "," (map text (y :: l'))).
  by rewrite !no_newline_append, Hx, IH.
Qed.

Lemma no_newline_render (m : json) : no_newline (render m) = true.
Proof.
  induction m as [|b|n|s|items IH|members IH] using json_ind'.
  - reflexivity.
  - by destruct b.
  - destruct n as [z e| |[]]; try reflexivity.
    assert (forall i, no_newline (render_int i) = true) as Hint.
    { intros i. unfold render_int.
      destruct (Z.to_int i); simpl; apply no_newline_render_uint. }
    cbn [render render_number]. rewrite no_newline_append, Hint.
    destruct (e =? 0); [done|]. simpl. apply Hint.
  - apply no_newline_render_string.
  - cbn [render]. by rewrite !no_newline_append, no_newline_join.
  - cbn [render]. change (map _ members) with (map member_text members).
    rewrite !no_newline_append, no_newline_join; [done|].
    eapply Forall_impl; [exact IH|]. intros [k v] Hv. unfold member_text.
    rewrite !no_newline_append, no_newline_render_string. simpl in *. by rewrite Hv.
Qed.

Lemma strip_newline_cons (c : ascii) (s : string) :
  s ≠ EmptyString -> strip_newline (String c s) = String c (strip_newline s).
Proof. by destruct s. Qed.

Lemma strip_newline_append (s : string) : strip_newline (s +:+ newline) = s.
Proof.
  induction s as [|c s IH]; [reflexivity|].
  rewrite append_String, strip_newline_cons, IH; [done|].
  by destruct s.
Qed.

Lemma decode_render (expect_id : bool) (m : json) :
  encodable m = true ->
  (expect_id = true -> has_id m = true) ->
  decode expect_id (render m +:+ newline) = inl m.
Proof.
  intros Henc Hid. unfold decode. rewrite strip_newline_append.
  pose proof (render_token_start m EmptyString) as Hstart.
  rewrite append_nil_r in Hstart. rewrite (skip_ws_token _ Hstart).
  pose proof (render_reads_back m Henc (String.length (render m)) EmptyString
                (json_size_length m) I) as Hread.
  rewrite append_nil_r in Hread. rewrite Hread.
  destruct (render m) as [|c s]; [done|]. cbn [skip_ws].
  destruct expect_id; [|done]. by rewrite Hid.
Qed.
End CodecLemmas.

(** C7.  For a message [encode] accepts (one without a non-finite number),
    [encode] gives one line: text without a newline character, followed by
    exactly one newline; and [decode] of these bytes is the message again,
    also when a correlation field is expected and the message has one. *)
Theorem decode_encode_roundtrip (m : codec.Message) :
  codec.encodable m = true ->
  exists line,
    codec.encode m = inl (line +:+ newline)
    /\ codec.no_newline line = true
    /\ codec.decode false (line +:+ newline) = inl m
    /\ (codec.has_id m = true -> codec.decode true (line +:+ newline) = inl m).
Proof.
  intros Henc. exists (codec.render m). unfold codec.encode. rewrite Henc.
  split; [done|]. split; [apply no_newline_render|].
  split; [by apply decode_render|]. intros Hid. by apply decode_render.
Qed.

Lemma decode_encode_roundtrip_witness :
  exists line,
    codec.encode ping_request = inl (line +:+ newline)
    /\ codec.no_newline line = true
    /\ codec.decode false (line +:+ newline) = inl ping_request
    /\ (codec.has_id ping_request = true ->
        codec.decode true (line +:+ newline) = inl ping_request).
Proof. apply (decode_encode_roundtrip ping_request). reflexivity. Defined.

Example encode_ping :
  codec.encode ping_request =
    inl ("{" +:+ quoted "id" +:+ ":1," +:+ quoted "method" +:+ ":" +:+ quoted "ping"
           +:+ "}" +:+ newline).
Proof. reflexivity. Qed.

Example encode_rejects_non_finite :
  codec.encode (codec.JArr [codec.JNum codec.JNaN]) = inr codec.NonFiniteNumber.
Proof. reflexivity. Qed.

Example decode_blank_line :
  codec.decode false ("  " +:+ newline) =
    inr {| codec.offset := 0; codec.cause := codec.EmptyLine |}.
Proof. reflexivity. Qed.

Example decode_with_blanks :
  codec.decode true ("{ " +:+ quoted "id" +:+ " : 7 , " +:+ quoted "result"
                       +:+ " : [1, 2] }" +:+ newline) =
    inl (codec.JObj [("id", codec.JNum (codec.JInt 7));
                     ("result", codec.JArr [codec.JNum (codec.JInt 1);
                                            codec.JNum (codec.JInt 2)])]).
Proof. vm_compute. reflexivity. Qed.

Example encode_decimal :
  codec.encode (codec.JArr [codec.JNum (codec.JDec 15 (-1)); codec.JNum (codec.JInt (-3))]) =
    inl ("[15e-1,-3]" +:+ newline).
Proof. reflexivity. Qed.

Example decode_decimals :
  codec.decode false ("[1.5, -0.25e3, 2E+2, 0]" +:+ newline) =
    inl (codec.JArr [codec.JNum (codec.JDec 15 (-1)); codec.JNum (codec.JDec (-25) 1);
                     codec.JNum (codec.JDec 2 2); codec.JNum (codec.JInt 0)]).
Proof. vm_compute. reflexivity. Qed.

Example decode_malformed_numbers :
  codec.decode false "01" = inr {| codec.offset := 0; codec.cause := codec.MalformedJSON |}
  /\ codec.decode false "1." = inr {| codec.offset := 1; codec.cause := codec.MalformedJSON |}
  /\ codec.decode false "[1e]" = inr {| codec.offset := 2; codec.cause := codec.MalformedJSON |}.
Proof. repeat split; vm_compute; reflexivity. Qed.

Example decode_embedded_newline :
  codec.decode false ("[1," +:+ newline +:+ "2]" +:+ newline) =
    inr {| codec.offset := 3; codec.cause := codec.MalformedJSON |}.
Proof. vm_compute. reflexivity. Qed.

Example decode_missing_id :
  codec.decode true ("[1]" +:+ newline) =
    inr {| codec.offset := 0; codec.cause := codec.MissingCorrelationId |}.
Proof. reflexivity. Qed.

(** ** The transport bridge: a request that is not answered in time *)

Section TransportLemmas.
Import codec transport.

Lemma step_table_subseteq (ev : Event) (b : Bridge) : table (step ev b) ⊆ table b.
Proof.
  destruct ev; simpl.
  - apply map_filter_subseteq.
  - apply delete_subseteq.
  - apply map_empty_subseteq.
Qed.

Lemma run_cons (ev : Event) (events : list Event) (b : Bridge) :
  run (ev :: events) b = run events (step ev b).
Proof. reflexivity. Qed.

Lemma run_table_subseteq (events : list Event) (b : Bridge) :
  table (run events b) ⊆ table b.
Proof.
  revert b. induction events as [|ev events IH]; intros b; [done|].
  rewrite run_cons. etrans; [apply IH|apply step_table_subseteq].
Qed.

(** While the request [id] waits, the bridge is the bridge that never saw
    the request, plus the one entry in the table; the event that reaches
    the deadline removes the entry again. *)
Lemma await_times_out (id : Z) (p : PendingRequest) (events : list Event) :
  forall b0 b1 : Bridge,
    clock b1 = clock b0 -> timeout b1 = timeout b0 ->
    table b1 = <[id := p]> (table b0) -> table b0 !! id = None ->
    Forall (unanswered id) events ->
    (clock b0 < deadline p)%nat ->
    (deadline p - clock b0 <= ticks events)%nat ->
    exists n,
      (n <= length events)%nat /\
      await id events b1 =
        (Some (Failure TimeoutError),
         {| clock := clock (run (take n events) b0);
            timeout := timeout b0;
            table := table (run (take n events) b0);
            subprocess := subprocess b1 |}).
Proof.
  induction events as [|ev events IH]; intros b0 b1 Hc Ht Htab Hfresh Hquiet Hlt Hticks.
  { simpl in Hticks. lia. }
  apply Forall_cons in Hquiet as [Hev Hquiet].
  assert (table b1 !! id = Some p) as Hp by (by rewrite Htab, lookup_insert_eq).
  destruct ev as [|id' response|]; [| |done].
  - cbn [await]. unfold resolution. rewrite Hp.
    destruct (decide (deadline p <= S (clock b1))%nat) as [Hd|Hd].
    + exists 1%nat. split; [simpl; lia|]. f_equal. cbn [take run fold_left step].
      rewrite Hc, Ht, Htab. f_equal.
      apply map_filter_insert_not'; simpl; [lia|]. intros y Hy. congruence.
    + destruct (IH (step Tick b0) (step Tick b1)) as (n & Hlen & Hn);
        [ simpl; by rewrite Hc
        | exact Ht
        | simpl; rewrite Hc, Htab; apply map_filter_insert_True; simpl; lia
        | simpl; apply map_lookup_filter_None_2; by left
        | done
        | simpl; lia
        | simpl in *; lia
        | ].
      exists (S n). split; [simpl; lia|]. rewrite Hn. reflexivity.
  - simpl in Hev. cbn [await]. unfold resolution. rewrite Hp.
    rewrite decide_False by done.
    destruct (IH (step (ResponseLine id' response) b0)
                 (step (ResponseLine id' response) b1)) as (n & Hlen & Hn);
      [ exact Hc
      | exact Ht
      | simpl; rewrite Htab; by apply delete_insert_ne
      | simpl; by rewrite lookup_delete_ne
      | done
      | exact Hlt
      | exact Hticks
      | ].
    exists (S n). split; [simpl; lia|]. rewrite Hn. reflexivity.
Qed.

(** A caller that was woken is not affected by later events. *)
Lemma await_app (id : Z) (events later : list Event) (b b' : Bridge) (r : Resolution) :
  await id events b = (Some r, b') ->
  await id (events ++ later) b = (Some r, b').
Proof.
  revert b. induction events as [|ev events IH]; intros b; [done|].
  cbn [await app]. destruct (resolution ev b id); [done|]. apply IH.
Qed.
End TransportLemmas.

(** C8.  A request whose identifier is new to the correlation table, sent
    to a running subprocess, and for which neither a matching response line
    nor the exit of the subprocess occurs among the first [k] events, during
    which at least the configured time passes, resolves to [TimeoutError].
    Afterwards the correlation table is the one the bridge would have had
    the request never been made (it holds no entry for the identifier and
    is no larger than before), and the subprocess is the same process,
    still running. *)
Theorem unanswered_request_times_out (session id : Z) (m : codec.Message)
    (events : list transport.Event) (k : nat) (b : transport.Bridge) :
  transport.table b !! id = None ->
  transport.lifecycle (transport.subprocess b) = transport.Running ->
  codec.encodable m = true ->
  Forall (transport.unanswered id) (take k events) ->
  (0 < transport.timeout b <= transport.ticks (take k events))%nat ->
  exists n b',
    transport.handleRequest session id m events b =
      (Some (transport.Failure transport.TimeoutError), b')
    /\ transport.table b' = transport.table (transport.run (take n events) b)
    /\ transport.table b' !! id = None
    /\ (size (transport.table b') <= size (transport.table b))%nat
    /\ transport.lifecycle (transport.subprocess b') = transport.Running
    /\ transport.pid (transport.subprocess b') = transport.pid (transport.subprocess b).
Proof.
  intros Hfresh Hrun Henc Hquiet [Hpos Hticks].
  unfold transport.handleRequest, transport.submit, transport.writeLine, codec.encode.
  rewrite Henc, Hrun.
  edestruct (await_times_out id
    {| transport.submitted := transport.clock b;
       transport.deadline := (transport.clock b + transport.timeout b)%nat;
       transport.owner := session |} (take k events) b) as (n & Hlen & Hn);
    [..|exists n; eexists; split;
        [rewrite <- (take_drop k events) at 1; apply await_app; exact Hn|]];
    simpl; try done; try lia.
  rewrite length_take in Hlen.
  rewrite take_take, Nat.min_l by lia.
  pose proof (run_table_subseteq (take n events) b) as Hsub.
  split; [done|]. split; [by eapply lookup_weaken_None|].
  split; [by apply map_subseteq_size|done].
Qed.

Lemma unanswered_request_times_out_witness :
  exists n b',
    transport.handleRequest 1 42 ping_request example_events example_bridge =
      (Some (transport.Failure transport.TimeoutError), b')
    /\ transport.table b' =
         transport.table (transport.run (take n example_events) example_bridge)
    /\ transport.table b' !! 42 = None
    /\ (size (transport.table b') <= size (transport.table example_bridge))%nat
    /\ transport.lifecycle (transport.subprocess b') = transport.Running
    /\ transport.pid (transport.subprocess b') =
         transport.pid (transport.subprocess example_bridge).
Proof.
  apply (unanswered_request_times_out 1 42 ping_request example_events 3 example_bridge).
  - reflexivity.
  - reflexivity.
  - reflexivity.
  - repeat constructor; discriminate.
  - vm_compute. lia.
Defined.

Example timeout_leaves_table_empty :
  transport.handleRequest 1 42 ping_request example_events example_bridge =
    (Some (transport.Failure transport.TimeoutError),
     {| transport.clock := 12%nat; transport.timeout := 2%nat;
        transport.table := ∅;
        transport.subprocess :=
          {| transport.pid := 4711;
             transport.launch_arguments := ["--server"; "http://portainer:9000"];
             transport.stdin :=
               ["{" +:+ quoted "id" +:+ ":1," +:+ quoted "method" +:+ ":"
                    +:+ quoted "ping" +:+ "}" +:+ newline];
             transport.lifecycle := transport.Running |} |}).
Proof. vm_compute. reflexivity. Qed.

Example response_in_time_is_delivered :
  fst (transport.handleRequest 1 42 ping_request
         [transport.Tick; transport.ResponseLine 42 (codec.JStr "pong"); transport.Tick]
         example_bridge) =
    Some (transport.Response (codec.JStr "pong")).
Proof. vm_compute. reflexivity. Qed.

(** * Further properties of the code *)

(** ** internal/auth/auth.go: which answer a rejected request gets *)

Lemma Index_no_space (h : string) :
  contains_space h = false -> strings.Index h " " = None.
Proof.
  induction h as [|c h IH]; [done|].
  cbn [contains_space]. intros [Hc Hh]%orb_false_iff.
  rewrite Index_unfold. cbn [String.prefix].
  destruct (ascii_dec " " c) as [<-|_]; [done|]. by rewrite IH.
Qed.

Lemma Index_first_space (scheme rest : string) :
  contains_space scheme = false ->
  strings.Index (scheme +:+ String " " rest) " " = Some (String.length scheme).
Proof.
  induction scheme as [|c s IH].
  - intros _. rewrite append_Empty, Index_unfold. cbn [String.prefix].
    simpl (ascii_dec _ _). cbv iota. by rewrite prefix_empty.
  - cbn [contains_space]. intros [Hc Hs]%orb_false_iff.
    rewrite append_String, Index_unfold. cbn [String.prefix].
    destruct (ascii_dec " " c) as [<-|_]; [done|]. by rewrite IH.
Qed.

Lemma slice_to_append (a b : string) : slice_to (String.length a) (a +:+ b) = a.
Proof.
  induction a as [|c a IH]; [by rewrite slice_to_zero|].
  rewrite append_String. cbn [String.length]. by rewrite slice_to_succ, IH.
Qed.

Lemma slice_from_append (a b : string) : slice_from (String.length a) (a +:+ b) = b.
Proof. induction a as [|c a IH]; [done|]. by rewrite append_String. Qed.

Section AuthReasons.
Import http auth.
Context {D : Type}.
Variable expectedToken : string.
Variable next : Handler D.

Lemma reject_without_space (r : Request) (w : ResponseWriter) (d : D) :
  Header_Get (Header_of r) "Authorization" ≠ EmptyString ->
  contains_space (Header_Get (Header_of r) "Authorization") = false ->
  NewAuthMiddleware expectedToken next r w d =
    (Error w invalid_format_body StatusUnauthorized, d).
Proof.
  intros Hne Hsp. unfold NewAuthMiddleware.
  rewrite decide_False by done.
  by rewrite (SplitN_two _ Hne), Index_no_space.
Qed.

Lemma split_scheme (r : Request) (scheme rest : string) :
  Header_Get (Header_of r) "Authorization" = scheme +:+ " " +:+ rest ->
  contains_space scheme = false ->
  Header_Get (Header_of r) "Authorization" ≠ EmptyString /\
  strings.SplitN (Header_Get (Header_of r) "Authorization") " " 2 = [scheme; rest].
Proof.
  intros Hh Hsp. rewrite Hh, append_String, append_Empty.
  assert (scheme +:+ String " " rest ≠ EmptyString) as Hne by (by destruct scheme).
  split; [done|].
  rewrite (SplitN_two _ Hne), Index_first_space by done.
  rewrite slice_to_append. f_equal. f_equal.
  rewrite <- (slice_from_append (scheme +:+ " ") rest) at 2.
  rewrite length_append, append_assoc. reflexivity.
Qed.

(** X1.  The body of the 401 answer names the failure: a missing or empty
    header gives [missing authorization header]; a header without a blank,
    or whose text before the first blank is not [Bearer], gives [invalid
    authorization format]; the scheme [Bearer] followed by another token
    gives [invalid token]. *)
Theorem auth_rejection_reason (r : Request) (w : ResponseWriter) (d : D) :
  (Header_Get (Header_of r) "Authorization" = EmptyString ->
   NewAuthMiddleware expectedToken next r w d =
     (Error w missing_header_body StatusUnauthorized, d))
  /\ (Header_Get (Header_of r) "Authorization" ≠ EmptyString ->
      contains_space (Header_Get (Header_of r) "Authorization") = false ->
      NewAuthMiddleware expectedToken next r w d =
        (Error w invalid_format_body StatusUnauthorized, d))
  /\ (forall scheme rest,
        Header_Get (Header_of r) "Authorization" = scheme +:+ " " +:+ rest ->
        contains_space scheme = false -> scheme ≠ "Bearer" ->
        NewAuthMiddleware expectedToken next r w d =
          (Error w invalid_format_body StatusUnauthorized, d))
  /\ (forall token,
        Header_Get (Header_of r) "Authorization" = "Bearer " +:+ token ->
        token ≠ expectedToken ->
        NewAuthMiddleware expectedToken next r w d =
          (Error w invalid_token_body StatusUnauthorized, d)).
Proof.
  split; [|split; [|split]].
  - intros Hh. unfold NewAuthMiddleware. by rewrite decide_True.
  - apply reject_without_space.
  - intros scheme rest Hh Hsp Hscheme.
    destruct (split_scheme r scheme rest Hh Hsp) as [Hne Hsplit].
    unfold NewAuthMiddleware. rewrite decide_False by done. rewrite Hsplit.
    by rewrite decide_True.
  - intros token Hh Htok.
    destruct (split_scheme r "Bearer" token Hh eq_refl) as [Hne Hsplit].
    unfold NewAuthMiddleware. rewrite decide_False by done. rewrite Hsplit.
    rewrite decide_False by (by intros ?). by rewrite decide_True.
Qed.
End AuthReasons.

(** The middleware is its verdict on the header, made before the wrapped
    handler is looked at. *)
Lemma NewAuthMiddleware_verdict {D : Type} (token : string) (next : http.Handler D)
    (r : http.Request) (w : http.ResponseWriter) (d : D) :
  auth.NewAuthMiddleware token next r w d =
    match auth_verdict token (http.Header_Get (http.Header_of r) "Authorization") with
    | Some body => (http.Error w body http.StatusUnauthorized, d)
    | None => next r w d
    end.
Proof.
  unfold auth.NewAuthMiddleware, auth_verdict.
  destruct (decide (_ = EmptyString)); [done|].
  destruct (strings.SplitN _ _ _) as [|scheme [|tok [|? ?]]]; try done.
  destruct (decide (scheme ≠ "Bearer")); [done|].
  by destruct (decide (tok ≠ token)).
Qed.

Lemma Error_status (w : http.ResponseWriter) (body : string) (code : Z) :
  is_Some (http.rw_status (http.Error w body code)).
Proof.
  unfold http.Error, http.Write, http.WriteHeader, http.SetHeader, http.DelHeader.
  simpl. destruct (http.rw_status w); simpl; by eexists.
Qed.

Lemma auth_verdict_pass (token : string) (r : http.Request) :
  auth_verdict token (http.Header_Get (http.Header_of r) "Authorization") = None <->
  http.Header_Get (http.Header_of r) "Authorization" = "Bearer " +:+ token.
Proof.
  pose proof (NewAuthMiddleware_verdict token (fun _ w (d : unit) => (w, d)) r
                http.newResponse tt) as Hv.
  destruct (NewAuthMiddleware_cases token (fun _ w (d : unit) => (w, d)) r
              http.newResponse tt) as [[Hh Hpass]|[Hh (b & _ & Hrej)]].
  - split; [done|]. intros _.
    destruct (auth_verdict _ _) as [body|]; [|done].
    rewrite Hpass in Hv.
    apply (f_equal (fun x => http.rw_status (fst x))) in Hv. cbn [fst] in Hv.
    pose proof (Error_status http.newResponse body http.StatusUnauthorized) as [c Hc].
    by rewrite <- Hv in Hc.
  - split; [|done]. intros Hnone. rewrite Hnone, Hrej in Hv.
    apply (f_equal (fun x => http.rw_status (fst x))) in Hv. cbn [fst] in Hv.
    pose proof (Error_status http.newResponse b http.StatusUnauthorized) as [c Hc].
    by rewrite Hv in Hc.
Qed.

Section AuthComposition.
Import http auth.
Context {D : Type}.

(** X2.  Wrapping a handler twice with the same token is the same as
    wrapping it once; wrapping it with two different tokens lets no request
    through: the wrapped handler is never invoked and the downstream state
    stays as it was. *)
Theorem auth_middleware_stacked (token other : string) (next : Handler D)
    (r : Request) (w : ResponseWriter) (d : D) (log : list Request) :
  NewAuthMiddleware token (NewAuthMiddleware token next) r w d =
    NewAuthMiddleware token next r w d
  /\ (token ≠ other ->
      snd (NewAuthMiddleware token (NewAuthMiddleware other (traced next)) r w (d, log))
        = (d, log)).
Proof.
  split.
  - rewrite (NewAuthMiddleware_verdict token (NewAuthMiddleware token next)).
    rewrite (NewAuthMiddleware_verdict token next).
    by destruct (auth_verdict _ _).
  - intros Hne.
    rewrite (NewAuthMiddleware_verdict token (NewAuthMiddleware other (traced next))).
    destruct (auth_verdict token _) as [body|] eqn:Hv; [done|].
    apply auth_verdict_pass in Hv.
    rewrite (NewAuthMiddleware_verdict other (traced next)).
    destruct (auth_verdict other _) as [body|] eqn:Hv'; [done|].
    apply auth_verdict_pass in Hv'. rewrite Hv in Hv'.
    by apply (inj (String.append "Bearer ")) in Hv'.
Qed.
End AuthComposition.

(** ** internal/config/config.go *)

Section ConfigProperties.
Import config.

Lemma config_variable_elem (key : string) :
  In key config_variables -> key ∈ config_variables.
Proof. apply list_elem_of_In. Qed.

(** [LoadConfig] reads the environment through its eight variables. *)
Lemma LoadConfig_ext (env1 env2 : Env) :
  (forall key, key ∈ config_variables -> os_Getenv env1 key = os_Getenv env2 key) ->
  LoadConfig env1 = LoadConfig env2.
Proof.
  intros H. unfold LoadConfig, getEnvOrDefault, getEnvAsIntOrDefault,
    getEnvAsBoolOrDefault.
  rewrite (H "PORTAINER_URL"), (H "PORTAINER_API_TOKEN"), (H "MCP_ACCESS_TOKEN"),
    (H "MCP_PORT"), (H "MCP_TOOLS_FILE"), (H "DISABLE_VERSION_CHECK"),
    (H "READ_ONLY_MODE"), (H "MCP_BINARY_PATH");
    [reflexivity|apply config_variable_elem; simpl; tauto..].
Qed.

(** X3.  A configuration that [LoadConfig] returns has both tokens, the
    Portainer URL and the path of the executable non-empty. *)
Theorem LoadConfig_success_nonempty (env : Env) (cfg : Config) :
  LoadConfig env = inl cfg ->
  PortainerAPIToken cfg ≠ EmptyString /\ MCPAccessToken cfg ≠ EmptyString /\
  PortainerURL cfg ≠ EmptyString /\ MCPBinaryPath cfg ≠ EmptyString.
Proof.
  unfold LoadConfig. cbn [PortainerAPIToken MCPAccessToken].
  destruct (decide (os_Getenv env "PORTAINER_API_TOKEN" = EmptyString)); [done|].
  destruct (decide (os_Getenv env "MCP_ACCESS_TOKEN" = EmptyString)); [done|].
  intros [= <-]. cbn. unfold getEnvOrDefault.
  repeat split; try done; by case_decide.
Qed.

(** X4.  The error names the first missing token: without
    PORTAINER_API_TOKEN the error is about that variable whether or not
    MCP_ACCESS_TOKEN is set; the error about MCP_ACCESS_TOKEN is given only
    when PORTAINER_API_TOKEN is there. *)
Theorem LoadConfig_error_precedence (env : Env) :
  (LoadConfig env = inr "PORTAINER_API_TOKEN is required" <->
     env !! "PORTAINER_API_TOKEN" = None \/
     env !! "PORTAINER_API_TOKEN" = Some EmptyString)
  /\ (LoadConfig env = inr "MCP_ACCESS_TOKEN is required" <->
       (exists v, env !! "PORTAINER_API_TOKEN" = Some v /\ v ≠ EmptyString) /\
       (env !! "MCP_ACCESS_TOKEN" = None \/
        env !! "MCP_ACCESS_TOKEN" = Some EmptyString)).
Proof.
  rewrite <- !Getenv_empty.
  assert ((exists v, env !! "PORTAINER_API_TOKEN" = Some v /\ v ≠ EmptyString) <->
          os_Getenv env "PORTAINER_API_TOKEN" ≠ EmptyString) as ->.
  { unfold os_Getenv. destruct (env !! "PORTAINER_API_TOKEN") as [v|]; simpl.
    - split; [by intros (? & [= <-] & ?)|eauto].
    - split; [by intros (? & ? & ?)|done]. }
  unfold LoadConfig. cbn [PortainerAPIToken MCPAccessToken].
  destruct (decide (os_Getenv env "PORTAINER_API_TOKEN" = EmptyString)) as [H1|H1].
  { split; [done|]. split; [done|]. by intros [? _]. }
  destruct (decide (os_Getenv env "MCP_ACCESS_TOKEN" = EmptyString)) as [H2|H2].
  { split; [|done]. split; [done|]. by intros ?. }
  split; split; try done. by intros [_ ?].
Qed.

Lemma ParseBool_true (v : string) :
  strconv.ParseBool v = Some true <-> v ∈ true_spellings.
Proof.
  unfold strconv.ParseBool, true_spellings.
  destruct (bool_decide _) eqn:Ht.
  - apply bool_decide_eq_true in Ht. done.
  - apply bool_decide_eq_false in Ht. split; [|done].
    by destruct (bool_decide _).
Qed.

Lemma getEnvAsBool_true (env : Env) (key : string) :
  getEnvAsBoolOrDefault env key false = true <->
  exists v, env !! key = Some v /\ v ∈ true_spellings.
Proof.
  unfold getEnvAsBoolOrDefault, os_Getenv.
  destruct (env !! key) as [v|]; simpl.
  - destruct (decide (v ≠ EmptyString)) as [Hv|Hv].
    + split.
      * intros H. exists v. split; [done|]. apply ParseBool_true.
        by destruct (strconv.ParseBool v) as [[]|].
      * intros (? & [= <-] & Hin). apply ParseBool_true in Hin. by rewrite Hin.
    + apply dec_stable in Hv as ->. split; [done|].
      intros (? & [= <-] & Hin). by apply ParseBool_true in Hin.
  - split; [done|]. by intros (? & ? & ?).
Qed.

(** X5.  Read-only mode and the disabled version check are switched on by
    exactly six spellings of their variables ([1], [t], [T], [TRUE],
    [true], [True]); with any other value, such as [yes] or [on], or
    without one, the switch is off. *)
Theorem LoadConfig_switch_spellings (env : Env) (cfg : Config) :
  LoadConfig env = inl cfg ->
  (ReadOnlyMode cfg = true <->
     exists v, env !! "READ_ONLY_MODE" = Some v /\ v ∈ true_spellings)
  /\ (DisableVersionCheck cfg = true <->
       exists v, env !! "DISABLE_VERSION_CHECK" = Some v /\ v ∈ true_spellings).
Proof.
  unfold LoadConfig. cbn [PortainerAPIToken MCPAccessToken].
  destruct (decide (os_Getenv env "PORTAINER_API_TOKEN" = EmptyString)); [done|].
  destruct (decide (os_Getenv env "MCP_ACCESS_TOKEN" = EmptyString)); [done|].
  intros [= <-]. cbn [ReadOnlyMode DisableVersionCheck].
  split; apply getEnvAsBool_true.
Qed.

(** X6.  For every variable, the empty value is the same as no value:
    setting a variable to the empty string and removing it give the same
    result of [LoadConfig]. *)
Theorem LoadConfig_empty_is_unset (env : Env) (key : string) :
  LoadConfig (<[key := EmptyString]> env) = LoadConfig (delete key env).
Proof.
  apply LoadConfig_ext. intros k _. unfold os_Getenv.
  destruct (decide (key = k)) as [->|Hne].
  - by rewrite lookup_insert_eq, lookup_delete_eq.
  - by rewrite lookup_insert_ne, lookup_delete_ne.
Qed.

(** X7.  [LoadConfig] depends on its eight variables only: setting or
    removing any other variable of the environment does not change its
    result. *)
Theorem LoadConfig_other_variables (env : Env) (key value : string) :
  key ∉ config_variables ->
  LoadConfig (<[key := value]> env) = LoadConfig env /\
  LoadConfig (delete key env) = LoadConfig env.
Proof.
  intros Hkey. split; apply LoadConfig_ext; intros k Hk; unfold os_Getenv.
  - rewrite lookup_insert_ne; [done|]. by intros ->.
  - rewrite lookup_delete_ne; [done|]. by intros ->.
Qed.
End ConfigProperties.

Lemma LoadConfig_success_nonempty_witness :
  config.PortainerAPIToken example_config ≠ EmptyString /\
  config.MCPAccessToken example_config ≠ EmptyString /\
  config.PortainerURL example_config ≠ EmptyString /\
  config.MCPBinaryPath example_config ≠ EmptyString.
Proof.
  apply (LoadConfig_success_nonempty
           {[ "PORTAINER_API_TOKEN" := "ptr_token"; "MCP_ACCESS_TOKEN" := "s3cret";
              "READ_ONLY_MODE" := "1" ]}).
  vm_compute. reflexivity.
Defined.

Lemma LoadConfig_switch_spellings_witness :
  (config.ReadOnlyMode example_config = true <->
     exists v, ({[ "PORTAINER_API_TOKEN" := "ptr_token"; "MCP_ACCESS_TOKEN" := "s3cret";
                   "READ_ONLY_MODE" := "1" ]} : config.Env) !! "READ_ONLY_MODE" = Some v
               /\ v ∈ true_spellings)
  /\ (config.DisableVersionCheck example_config = true <->
       exists v, ({[ "PORTAINER_API_TOKEN" := "ptr_token"; "MCP_ACCESS_TOKEN" := "s3cret";
                     "READ_ONLY_MODE" := "1" ]} : config.Env) !! "DISABLE_VERSION_CHECK" = Some v
                 /\ v ∈ true_spellings).
Proof.
  apply (LoadConfig_switch_spellings
           {[ "PORTAINER_API_TOKEN" := "ptr_token"; "MCP_ACCESS_TOKEN" := "s3cret";
              "READ_ONLY_MODE" := "1" ]} example_config).
  vm_compute. reflexivity.
Defined.

Lemma LoadConfig_other_variables_witness :
  config.LoadConfig (<["HOME" := "/root"]> example_env) = config.LoadConfig example_env /\
  config.LoadConfig (delete "HOME" example_env) = config.LoadConfig example_env.
Proof.
  apply (LoadConfig_other_variables example_env "HOME" "/root").
  unfold config_variables. rewrite !elem_of_cons, elem_of_nil.
  intros [H|[H|[H|[H|[H|[H|[H|[H|[]]]]]]]]]; discriminate H.
Defined.

(** ** The port: [getEnvAsIntOrDefault] and [strconv.Atoi] *)

Section PortProperties.
Import config strconv.

Lemma digits_value_acc (d : Decimal.uint) (acc : positive) :
  digits_value (Z.pos acc) (NilEmpty.string_of_uint d) =
    Some (Z.pos (Pos.of_uint_acc d acc)).
Proof.
  revert acc.
  induction d as [|d IH|d IH|d IH|d IH|d IH|d IH|d IH|d IH|d IH|d IH]; intros acc;
    [reflexivity|..];
    cbn [NilEmpty.string_of_uint digits_value Pos.of_uint_acc];
    match goal with
    | |- context [is_digit ?c] => change (is_digit c) with true
    end; cbv iota;
    match goal with
    | |- digits_value ?a _ = Some (Z.pos (Pos.of_uint_acc _ ?b)) =>
        replace a with (Z.pos b)
          by (rewrite ?Pos2Z.inj_add, ?Pos2Z.inj_mul;
              match goal with |- context [digit_value ?c] =>
                let v := eval vm_compute in (digit_value c) in
                change (digit_value c) with v end; lia)
    end; apply IH.
Qed.

Lemma digits_value_uint (d : Decimal.uint) :
  digits_value 0 (NilEmpty.string_of_uint d) = Some (Z.of_N (Pos.of_uint d)).
Proof.
  induction d as [|d IH|d IH|d IH|d IH|d IH|d IH|d IH|d IH|d IH|d IH];
    [reflexivity|exact IH|..];
    cbn [NilEmpty.string_of_uint digits_value Pos.of_uint];
    match goal with
    | |- context [is_digit ?c] => change (is_digit c) with true
    end; cbv iota;
    match goal with
    | |- digits_value ?a _ = Some (Z.of_N (N.pos (Pos.of_uint_acc _ ?b))) =>
        change a with (Z.pos b)
    end; apply digits_value_acc.
Qed.

Lemma digits_value_pos (p : positive) :
  digits_value 0 (NilEmpty.string_of_uint (Pos.to_uint p)) = Some (Z.pos p).
Proof. by rewrite digits_value_uint, DecimalPos.Unsigned.of_to. Qed.

(** [strconv.Atoi] reads back the decimal numeral of every integer of the
    range of [int]. *)
Lemma Atoi_decimal (z : Z) :
  min_int <= z <= max_int -> Atoi (decimal z) = Some z.
Proof.
  intros Hrange. unfold decimal, NilZero.string_of_int, NilZero.string_of_uint.
  assert (forall v, min_int <= v <= max_int ->
            (min_int <=? v) && (v <=? max_int) = true) as Hin.
  { intros v [? ?]. apply andb_true_iff. split; by apply Z.leb_le. }
  destruct z as [|p|p]; simpl Z.to_int; cbv beta iota; [reflexivity|..].
  - pose proof (digits_value_pos p) as Hd.
    pose proof (DecimalPos.Unsigned.to_uint_nonnil p) as Hnil.
    destruct (Pos.to_uint p) eqn:E; [done|..];
      cbn [NilEmpty.string_of_uint] in *; unfold Atoi;
      match goal with
      | |- context [Ascii.eqb ?c "-"] =>
          change (Ascii.eqb c "-") with false; change (Ascii.eqb c "+") with false
      end; cbv iota; rewrite Hd; cbv beta iota; by rewrite Hin.
  - pose proof (digits_value_pos p) as Hd.
    pose proof (DecimalPos.Unsigned.to_uint_nonnil p) as Hnil.
    unfold Atoi. change (Ascii.eqb "-" "-") with true. cbv iota.
    destruct (Pos.to_uint p) eqn:E; [done|..];
      cbn [NilEmpty.string_of_uint] in *; rewrite Hd; cbv beta iota;
      change (- Z.pos p) with (Z.neg p); by rewrite Hin.
Qed.

Lemma decimal_nonempty (z : Z) : decimal z ≠ EmptyString.
Proof.
  unfold decimal, NilZero.string_of_int, NilZero.string_of_uint.
  destruct z as [|p|p]; simpl Z.to_int; cbv beta iota; [done| |done].
  pose proof (DecimalPos.Unsigned.to_uint_nonnil p).
  by destruct (Pos.to_uint p).
Qed.

Lemma all_digits_value (s : string) (acc : Z) :
  is_Some (digits_value acc s) -> all_digits s = true.
Proof.
  revert acc. induction s as [|c s IH]; intros acc; [done|].
  cbn [digits_value all_digits]. destruct (is_digit c); [|by intros [? ?]].
  apply IH.
Qed.

(** [strconv.Atoi] accepts nothing but an optional sign and digits. *)
Lemma Atoi_is_decimal (s : string) (v : Z) : Atoi s = Some v -> is_decimal s = true.
Proof.
  unfold Atoi, is_decimal. destruct s as [|c s]; [done|].
  destruct (Ascii.eqb c "-") eqn:Hm; [|destruct (Ascii.eqb c "+") eqn:Hp]; cbn [orb].
  - destruct s as [|c' s']; [done|]. cbv beta iota.
    destruct (digits_value 0 (String c' s')) eqn:Hd; [|done]. intros _.
    apply (all_digits_value _ 0). by rewrite Hd.
  - destruct s as [|c' s']; [done|]. cbv beta iota.
    destruct (digits_value 0 (String c' s')) eqn:Hd; [|done]. intros _.
    apply (all_digits_value _ 0). by rewrite Hd.
  - cbv beta iota.
    destruct (digits_value 0 (String c s)) eqn:Hd; [|done]. intros _.
    apply (all_digits_value _ 0). by rewrite Hd.
Qed.

(** X8.  The port is not checked against the range of ports: with both
    tokens set, every integer of the range of [int] written in decimal in
    MCP_PORT, negative numbers, zero and numbers above 65535 among them,
    becomes the port of the configuration. *)
Theorem LoadConfig_port_unchecked (env : Env) (z : Z) :
  min_int <= z <= max_int ->
  os_Getenv env "PORTAINER_API_TOKEN" ≠ EmptyString ->
  os_Getenv env "MCP_ACCESS_TOKEN" ≠ EmptyString ->
  env !! "MCP_PORT" = Some (decimal z) ->
  exists cfg, LoadConfig env = inl cfg /\ MCPPort cfg = z.
Proof.
  intros Hrange H1 H2 Hport. unfold LoadConfig. cbn [PortainerAPIToken MCPAccessToken].
  rewrite !decide_False by done. eexists. split; [reflexivity|].
  cbn [MCPPort]. unfold getEnvAsIntOrDefault, os_Getenv. rewrite Hport. simpl.
  rewrite decide_True by apply decimal_nonempty.
  by rewrite Atoi_decimal.
Qed.

(** X9.  A value of MCP_PORT that is not an optional sign followed by
    decimal digits only (with a blank, a hexadecimal prefix, an underscore
    or a fraction, say) is passed over for the default port 8080. *)
Theorem LoadConfig_port_not_decimal (env : Env) (cfg : Config) (value : string) :
  LoadConfig env = inl cfg ->
  env !! "MCP_PORT" = Some value ->
  is_decimal value = false ->
  MCPPort cfg = 8080.
Proof.
  unfold LoadConfig. cbn [PortainerAPIToken MCPAccessToken].
  destruct (decide (os_Getenv env "PORTAINER_API_TOKEN" = EmptyString)); [done|].
  destruct (decide (os_Getenv env "MCP_ACCESS_TOKEN" = EmptyString)); [done|].
  intros [= <-] Hport Hdec. cbn [MCPPort].
  unfold getEnvAsIntOrDefault, os_Getenv. rewrite Hport. simpl.
  case_decide; [|done].
  destruct (Atoi value) as [v|] eqn:Ha; [|done].
  apply Atoi_is_decimal in Ha. congruence.
Qed.
End PortProperties.

Lemma LoadConfig_port_unchecked_witness :
  exists cfg, config.LoadConfig example_env = inl cfg /\ config.MCPPort cfg = -1.
Proof.
  apply (LoadConfig_port_unchecked example_env (-1)).
  - vm_compute. split; discriminate.
  - vm_compute. discriminate.
  - vm_compute. discriminate.
  - reflexivity.
Defined.

Lemma LoadConfig_port_not_decimal_witness :
  config.MCPPort
    {| config.PortainerURL := "http://portainer:9000";
       config.PortainerAPIToken := "ptr_token";
       config.MCPAccessToken := "s3cret";
       config.MCPPort := 8080;
       config.MCPToolsFile := EmptyString;
       config.DisableVersionCheck := false;
       config.ReadOnlyMode := false;
       config.MCPBinaryPath := "/app/portainer-mcp" |} = 8080.
Proof.
  apply (LoadConfig_port_not_decimal
           {[ "PORTAINER_API_TOKEN" := "ptr_token"; "MCP_ACCESS_TOKEN" := "s3cret";
              "MCP_PORT" := "0x1F90" ]} _ "0x1F90").
  - vm_compute. reflexivity.
  - reflexivity.
  - reflexivity.
Defined.

(** ** cmd/wrapper/main.go: who reaches the MCP handler *)

Lemma finishRequest_status (w : http.ResponseWriter) (code : Z) :
  http.rw_status w = Some code -> http.finishRequest w = w.
Proof. unfold http.finishRequest, http.WriteHeader. by intros ->. Qed.

Lemma Redirect_status (w : http.ResponseWriter) (r : http.Request) (url : string)
    (code : Z) :
  http.rw_status w = None ->
  http.rw_status (http.Redirect w r url code) = Some code.
Proof.
  intros Hw. unfold http.Redirect. cbv zeta.
  destruct (negb _ && (_ || _)); destruct (negb _ && String.eqb _ _);
    unfold http.Write, http.WriteHeader, http.SetHeader; cbn [http.rw_status];
    rewrite ?Hw; cbn [http.rw_status]; try done.
  all: rewrite ?Hw; done.
Qed.

Section ServerAccess.
Import http config wrapper.
Context {D : Type}.
(** The MCP handler, whatever it is, with a log of its invocations. *)
Variable mcp_handler :
  (Request -> exec.OS -> option mcp.Server * exec.OS) -> Handler D.
Variable cfg : Config.

Local Abbreviation logged :=
  (fun getServer => traced (mcp_handler getServer)).

(** Without the right token the state behind the handler is untouched. *)
Lemma serve_without_token (r : Request) (d : D) (log : list Request) :
  Header_Get (Header_of r) "Authorization" ≠ "Bearer " +:+ MCPAccessToken cfg ->
  snd (serve logged cfg r (d, log)) = (d, log).
Proof.
  intros Hh.
  destruct (serve_cases logged cfg r (d, log))
    as (h & -> & [->|[->|[[u ->]|[->| ->]]]]); try done.
  cbn [finished snd].
  by destruct (NewAuthMiddleware_cases (MCPAccessToken cfg)
                 (traced (mcp_handler (getServer cfg))) r newResponse (d, log))
    as [[? _]|[_ (b & _ & ->)]].
Qed.

(** With the right token, a canonical path that does not name the
    liveness endpoint leads to the MCP handler. *)
Lemma serve_with_token (r : Request) (d : D) (log : list Request) :
  Header_Get (Header_of r) "Authorization" = "Bearer " +:+ MCPAccessToken cfg ->
  cleanPath (URL_EscapedPath r) = URL_EscapedPath r ->
  names_health (URL_EscapedPath r) = false ->
  serve logged cfg r (d, log) =
    finished (traced (mcp_handler (getServer cfg)) r newResponse (d, log)).
Proof.
  intros Hh Hc Hp. rewrite (serve_canonical logged cfg r (d, log) Hc), Hp.
  by destruct (NewAuthMiddleware_cases (MCPAccessToken cfg)
                 (traced (mcp_handler (getServer cfg))) r newResponse (d, log))
    as [[_ ->]|[? _]].
Qed.

(** The answers that do not come from the MCP handler leave its log as it
    was. *)
Lemma serve_not_reached (r : Request) (d : D) (log : list Request) :
  Method r ≠ "CONNECT" ->
  cleanPath (URL_EscapedPath r) ≠ URL_EscapedPath r
    \/ names_health (URL_EscapedPath r) = true ->
  snd (serve logged cfg r (d, log)) = (d, log).
Proof.
  intros Hm Hcase.
  destruct (decide (URL_EscapedPath r = "*")) as [Hs|Hs].
  { rewrite (serve_star logged cfg r (d, log) Hs).
    by destruct (decide (Method r = "OPTIONS")). }
  destruct (decide (cleanPath (URL_EscapedPath r) = URL_EscapedPath r)) as [Hc|Hc].
  - destruct Hcase as [?|Hn]; [done|].
    by rewrite (serve_canonical logged cfg r (d, log) Hc), Hn.
  - by rewrite (serve_noncanonical logged cfg r (d, log) Hm Hs Hc).
Qed.

(** X10.  No request reaches the MCP handler without the right bearer
    token, whatever its method and path: the handler is not invoked and the
    state behind it stays as it was. *)
Theorem unauthenticated_never_reaches_handler (r : Request) (d : D)
    (log : list Request) :
  Header_Get (Header_of r) "Authorization" ≠ "Bearer " +:+ MCPAccessToken cfg ->
  snd (serve logged cfg r (d, log)) = (d, log).
Proof.
  intros Hh.
  destruct (serve_cases logged cfg r (d, log))
    as (h & -> & [->|[->|[[u ->]|[->| ->]]]]); try done.
  cbn [finished snd].
  destruct (NewAuthMiddleware_cases (MCPAccessToken cfg)
              (traced (mcp_handler (getServer cfg))) r newResponse (d, log))
    as [[Heq _]|[_ (b & _ & Hrej)]]; [done|].
  by rewrite Hrej.
Qed.

(** X11.  A request other than CONNECT reaches the MCP handler exactly
    when it carries the right bearer token, its escaped path is in
    canonical form and the path does not name the liveness endpoint
    ([/health], percent-encoded or not); then the handler gets the request
    with a new response, and otherwise the state behind the handler stays
    as it was. *)
Theorem handler_reached_iff (r : Request) (d : D) (log : list Request) :
  Method r ≠ "CONNECT" ->
  (snd (snd (serve logged cfg r (d, log))) = r :: log <->
     Header_Get (Header_of r) "Authorization" = "Bearer " +:+ MCPAccessToken cfg /\
     cleanPath (URL_EscapedPath r) = URL_EscapedPath r /\
     names_health (URL_EscapedPath r) = false)
  /\ (Header_Get (Header_of r) "Authorization" = "Bearer " +:+ MCPAccessToken cfg ->
      cleanPath (URL_EscapedPath r) = URL_EscapedPath r ->
      names_health (URL_EscapedPath r) = false ->
      serve logged cfg r (d, log) =
        finished (traced (mcp_handler (getServer cfg)) r newResponse (d, log))).
Proof.
  intros Hm.
  pose proof (serve_with_token r d log) as Hpass.
  split; [|exact Hpass]. split.
  - intros Hlog.
    destruct (decide (Header_Get (Header_of r) "Authorization"
                        = "Bearer " +:+ MCPAccessToken cfg)) as [Hh|Hh].
    2:{ rewrite (serve_without_token r d log Hh) in Hlog.
        simpl in Hlog. symmetry in Hlog. by apply cons_neq in Hlog. }
    split; [done|].
    destruct (decide (cleanPath (URL_EscapedPath r) = URL_EscapedPath r)) as [Hc|Hc].
    2:{ rewrite (serve_not_reached r d log Hm (or_introl Hc)) in Hlog.
        simpl in Hlog. symmetry in Hlog. by apply cons_neq in Hlog. }
    split; [done|].
    destruct (names_health (URL_EscapedPath r)) eqn:Hn; [|done].
    rewrite (serve_not_reached r d log Hm (or_intror Hn)) in Hlog.
    simpl in Hlog. symmetry in Hlog. by apply cons_neq in Hlog.
  - intros (Hh & Hc & Hp). rewrite (Hpass Hh Hc Hp).
    unfold traced, finished. simpl. by destruct (mcp_handler _ _ _ _).
Qed.

(** X12.  A request other than CONNECT without the right bearer token is
    answered with status 200 when its path names the liveness endpoint,
    with 301 when its escaped path is not in canonical form, and with 401
    on every other path; the request target [*] is answered with 200 for
    OPTIONS and with 400 for any other method.  No request gets 404. *)
Theorem unauthenticated_status (r : Request) (d : D) (log : list Request) :
  Method r ≠ "CONNECT" ->
  Header_Get (Header_of r) "Authorization" ≠ "Bearer " +:+ MCPAccessToken cfg ->
  rw_status (fst (serve logged cfg r (d, log))) =
    Some (if decide (URL_EscapedPath r = "*") then
            if decide (Method r = "OPTIONS") then StatusOK else StatusBadRequest
          else if decide (cleanPath (URL_EscapedPath r) = URL_EscapedPath r) then
            if names_health (URL_EscapedPath r) then StatusOK else StatusUnauthorized
          else StatusMovedPermanently).
Proof.
  intros Hm Hh.
  destruct (decide (URL_EscapedPath r = "*")) as [Hs|Hs].
  { rewrite (serve_star logged cfg r (d, log) Hs).
    destruct (decide (Method r = "OPTIONS")); [done|].
    unfold asteriskHandler. cbn. by destruct (ProtoAtLeast r 1 1). }
  destruct (decide (cleanPath (URL_EscapedPath r) = URL_EscapedPath r)) as [Hc|Hc].
  - rewrite (serve_canonical logged cfg r (d, log) Hc).
    destruct (names_health (URL_EscapedPath r)); [done|].
    destruct (NewAuthMiddleware_cases (MCPAccessToken cfg)
                (traced (mcp_handler (getServer cfg))) r newResponse (d, log))
      as [[? _]|[_ (b & _ & ->)]]; [done|].
    cbn [finished fst]. by rewrite Error_fresh.
  - rewrite (serve_noncanonical logged cfg r (d, log) Hm Hs Hc).
    unfold RedirectHandler, finished. cbn [fst].
    rewrite (finishRequest_status _ StatusMovedPermanently);
      by apply Redirect_status.
Qed.
End ServerAccess.

Lemma unauthenticated_never_reaches_handler_witness :
  snd (wrapper.serve (fun getServer => http.traced ((fun _ => echo_handler) getServer))
         example_config (with_authorization "Bearer ptr_token") (tt, [])) = (tt, []).
Proof.
  apply (unauthenticated_never_reaches_handler (fun _ => echo_handler) example_config
           (with_authorization "Bearer ptr_token") tt []).
  vm_compute. discriminate.
Defined.

Lemma handler_reached_iff_witness :
  (snd (snd (wrapper.serve
               (fun getServer => http.traced ((fun _ => echo_handler) getServer))
               example_config (bearer_request "GET" "/a%2F/b" "s3cret") (tt, [])))
     = [bearer_request "GET" "/a%2F/b" "s3cret"] <->
     http.Header_Get (http.Header_of (bearer_request "GET" "/a%2F/b" "s3cret"))
         "Authorization"
       = "Bearer " +:+ config.MCPAccessToken example_config /\
     http.cleanPath (http.URL_EscapedPath (bearer_request "GET" "/a%2F/b" "s3cret"))
       = http.URL_EscapedPath (bearer_request "GET" "/a%2F/b" "s3cret") /\
     wrapper.names_health (http.URL_EscapedPath (bearer_request "GET" "/a%2F/b" "s3cret"))
       = false)
  /\ (http.Header_Get (http.Header_of (bearer_request "GET" "/a%2F/b" "s3cret"))
          "Authorization"
        = "Bearer " +:+ config.MCPAccessToken example_config ->
      http.cleanPath (http.URL_EscapedPath (bearer_request "GET" "/a%2F/b" "s3cret"))
        = http.URL_EscapedPath (bearer_request "GET" "/a%2F/b" "s3cret") ->
      wrapper.names_health (http.URL_EscapedPath (bearer_request "GET" "/a%2F/b" "s3cret"))
        = false ->
      wrapper.serve (fun getServer => http.traced ((fun _ => echo_handler) getServer))
        example_config (bearer_request "GET" "/a%2F/b" "s3cret") (tt, []) =
        http.finished
          (http.traced ((fun _ => echo_handler) (wrapper.getServer example_config))
             (bearer_request "GET" "/a%2F/b" "s3cret") http.newResponse (tt, []))).
Proof.
  apply (handler_reached_iff (fun _ => echo_handler) example_config
           (bearer_request "GET" "/a%2F/b" "s3cret") tt []).
  vm_compute. discriminate.
Defined.

Lemma unauthenticated_status_witness :
  http.rw_status
    (fst (wrapper.serve (fun getServer => http.traced ((fun _ => echo_handler) getServer))
            example_config (get_path "/%68ealth") (tt, []))) =
    Some (if decide (http.URL_EscapedPath (get_path "/%68ealth") = "*") then
            if decide (http.Method (get_path "/%68ealth") = "OPTIONS")
            then http.StatusOK else http.StatusBadRequest
          else if decide (http.cleanPath (http.URL_EscapedPath (get_path "/%68ealth"))
                            = http.URL_EscapedPath (get_path "/%68ealth")) then
            if wrapper.names_health (http.URL_EscapedPath (get_path "/%68ealth"))
            then http.StatusOK else http.StatusUnauthorized
          else http.StatusMovedPermanently).
Proof.
  apply (unauthenticated_status (fun _ => echo_handler) example_config
           (get_path "/%68ealth") tt []).
  - vm_compute. discriminate.
  - vm_compute. discriminate.
Defined.

(** The statuses of X12 on concrete requests without credentials. *)
Example unauthenticated_status_examples :
  let status r :=
    http.rw_status
      (fst (wrapper.serve
              (fun getServer => http.traced ((fun _ => echo_handler) getServer))
              example_config r (tt, []))) in
  status (get_path "/health") = Some 200 /\
  status (get_path "/%68ealth") = Some 200 /\
  status (get_path "/a%2F/b") = Some 401 /\
  status (get_path "/a//b") = Some 301 /\
  status (get_path "/mcp") = Some 401 /\
  status (get_path "*") = Some 400 /\
  status (bearer_request "OPTIONS" "*" "none") = Some 200.
Proof. repeat split; vm_compute; reflexivity. Qed.

(** ** From the environment to the server and to the command *)

Section LoadedConfig.
Import http config wrapper.
Context {D : Type}.
Variable mcp_handler :
  (Request -> exec.OS -> option mcp.Server * exec.OS) -> Handler D.

Local Abbreviation logged :=
  (fun getServer => traced (mcp_handler getServer)).

End LoadedConfig.


(** ** internal/bridge/bridge.go: the command line determines the options *)

Section CommandProperties.
Import config bridge.

Lemma portainer_args_explicit (cfg : Config) :
  portainer_args cfg =
    (["--server"; PortainerURL cfg; "--api-token"; PortainerAPIToken cfg]
     ++ (if decide (MCPToolsFile cfg = EmptyString) then []
         else ["--tools-file"; MCPToolsFile cfg])
     ++ (if DisableVersionCheck cfg then ["--disable-version-check"] else [])
     ++ (if ReadOnlyMode cfg then ["--read-only"] else []))%list.
Proof.
  unfold portainer_args.
  destruct (decide (MCPToolsFile cfg ≠ EmptyString)) as [Hf|Hf];
    destruct (decide (MCPToolsFile cfg = EmptyString)) as [He|He];
    try done;
    destruct (DisableVersionCheck cfg), (ReadOnlyMode cfg); reflexivity.
Qed.

(** X14.  The argument list can be read back without ambiguity: two
    configurations with the same argument list have the same Portainer
    URL, API token, tools file, version-check switch and read-only switch,
    whatever these values are (flag-like values included). *)
Theorem portainer_args_injective (cfg1 cfg2 : Config) :
  portainer_args cfg1 = portainer_args cfg2 ->
  PortainerURL cfg1 = PortainerURL cfg2 /\
  PortainerAPIToken cfg1 = PortainerAPIToken cfg2 /\
  MCPToolsFile cfg1 = MCPToolsFile cfg2 /\
  DisableVersionCheck cfg1 = DisableVersionCheck cfg2 /\
  ReadOnlyMode cfg1 = ReadOnlyMode cfg2.
Proof.
  rewrite !portainer_args_explicit.
  destruct (decide (MCPToolsFile cfg1 = EmptyString)) as [H1|H1],
           (decide (MCPToolsFile cfg2 = EmptyString)) as [H2|H2],
           (DisableVersionCheck cfg1), (DisableVersionCheck cfg2),
           (ReadOnlyMode cfg1), (ReadOnlyMode cfg2);
    simpl; intros Heq; simplify_eq; repeat split; congruence.
Qed.
End CommandProperties.

Lemma portainer_args_injective_witness :
  config.PortainerURL example_config = config.PortainerURL other_port_config /\
  config.PortainerAPIToken example_config = config.PortainerAPIToken other_port_config /\
  config.MCPToolsFile example_config = config.MCPToolsFile other_port_config /\
  config.DisableVersionCheck example_config
    = config.DisableVersionCheck other_port_config /\
  config.ReadOnlyMode example_config = config.ReadOnlyMode other_port_config.
Proof.
  apply (portainer_args_injective example_config other_port_config). reflexivity.
Defined.

Section CommandFromEnvironment.
Import config bridge.

(** X15.  Read-only mode set in the environment reaches the subprocess:
    when [LoadConfig] succeeds and READ_ONLY_MODE has one of the spellings
    of true, [--read-only] is the last argument of the command that
    [GetPortainerCommand] and [CreateMCPServer] build, and the value of
    PORTAINER_API_TOKEN, which is not empty, is its fifth word. *)
Theorem read_only_reaches_command (env : Env) (cfg : Config) (value : string)
    (os : exec.OS) :
  LoadConfig env = inl cfg ->
  env !! "READ_ONLY_MODE" = Some value ->
  value ∈ true_spellings ->
  last (exec.Args (GetPortainerCommand cfg os)) = Some "--read-only"
  /\ last (exec.Args (CreateMCPServer_cmd cfg os)) = Some "--read-only"
  /\ exec.Args (GetPortainerCommand cfg os) !! 4%nat
       = Some (os_Getenv env "PORTAINER_API_TOKEN")
  /\ os_Getenv env "PORTAINER_API_TOKEN" ≠ EmptyString.
Proof.
  intros Hload Hro Hin.
  assert (ReadOnlyMode cfg = true /\
          PortainerAPIToken cfg = os_Getenv env "PORTAINER_API_TOKEN" /\
          os_Getenv env "PORTAINER_API_TOKEN" ≠ EmptyString) as (Hmode & Htok & Hne).
  { unfold LoadConfig in Hload. cbn [PortainerAPIToken MCPAccessToken] in Hload.
    destruct (decide (os_Getenv env "PORTAINER_API_TOKEN" = EmptyString)); [done|].
    destruct (decide (os_Getenv env "MCP_ACCESS_TOKEN" = EmptyString)); [done|].
    injection Hload as <-. cbn. repeat split; [|done].
    apply getEnvAsBool_true. eauto. }
  unfold GetPortainerCommand, CreateMCPServer_cmd, exec.CommandContext.
  rewrite !Command_Args, portainer_args_explicit, Hmode, Htok.
  repeat split; [| |done];
    destruct (decide (MCPToolsFile cfg = EmptyString)), (DisableVersionCheck cfg);
    reflexivity.
Qed.
End CommandFromEnvironment.

Lemma read_only_reaches_command_witness :
  last (exec.Args (bridge.GetPortainerCommand example_config shell_os))
    = Some "--read-only"
  /\ last (exec.Args (bridge.CreateMCPServer_cmd example_config shell_os))
       = Some "--read-only"
  /\ exec.Args (bridge.GetPortainerCommand example_config shell_os) !! 4%nat
       = Some (config.os_Getenv loaded_env "PORTAINER_API_TOKEN")
  /\ config.os_Getenv loaded_env "PORTAINER_API_TOKEN" ≠ EmptyString.
Proof.
  apply (read_only_reaches_command loaded_env example_config "true" shell_os).
  - vm_compute. reflexivity.
  - reflexivity.
  - unfold true_spellings. rewrite !elem_of_cons. tauto.
Defined.
